(** * Weather service: cache, freshness labels, offline fallback, refresh gate

    A shallow embedding of the backend of the weather application:

    - [instances/cache/weatherCache.ts]  (class [WeatherCache]),
    - [services/weather/weatherService.ts] ([getCurrentWeather],
      [refreshWeather], [checkRefreshEligibility], [fetchWeatherFromAPI],
      [celsiusToFahrenheit]),
    - [api/v1/external/weather/controller.ts] (the two HTTP handlers),
    - [utils/response.ts] ([successResponse], [errorResponse]).

    JavaScript numbers are IEEE-754 binary64 values.  Temperatures are
    modelled as such, on the executable specification of binary floating
    point of the standard library ([SpecFloat], precision 53, emax 1024).
    Instants ([Date.now()], [fetchedAt], [expiresAt]) are integer numbers of
    milliseconds, far below 2^53, where binary64 arithmetic is exact: they
    are modelled as [Z].

    The upstream payload is typed as the code reads it: an optional body
    with optional [current] and [location] objects, [temp_c] a number.
    A string is the UTF-8 encoding of the JavaScript string; the [length]
    of a JavaScript string counts UTF-16 code units ([utf16_length]), and
    the request schema bounds that.

    The code reads the wall clock and the network.  Both are oracles of the
    [World]: [clock w k] is the value of the [k]-th clock reading and
    [network w k q] the outcome of the [k]-th upstream request, for query
    [q].  The world also carries the module-level singleton [weatherCache]
    and the configuration. *)

From Stdlib Require Import ZArith Lia Bool.
From Stdlib Require Import Floats.SpecFloat.
From stdpp Require Import gmap strings list fin_maps pretty.

Local Open Scope string_scope.
Local Open Scope Z_scope.

(** ** JavaScript numbers ****************************************************)

Module JsNumber.

Definition prec : Z := 53.
Definition emax : Z := 1024.

Definition number : Type := spec_float.

(** The binary64 value of an integer literal. *)
Definition ofZ (z : Z) : number := binary_normalize prec emax z 0 false.

Definition mul (x y : number) : number := SFmul prec emax x y.
Definition div (x y : number) : number := SFdiv prec emax x y.
Definition add (x y : number) : number := SFadd prec emax x y.

(** [x < y] and [x > y]; both are false when an operand is NaN. *)
Definition ltb (x y : number) : bool := SFltb x y.
Definition gtb (x y : number) : bool := SFltb y x.
Definition leb (x y : number) : bool := SFleb x y.

(** The binary64 value of a decimal literal with one fractional digit,
    [tenths / 10], for instance [ofTenths 203] for [20.3]. *)
Definition ofTenths (tenths : Z) : number :=
  match tenths with
  | Z0 => S754_zero false
  | Zpos n => div (S754_finite false n 0) (ofZ 10)
  | Zneg n => div (S754_finite true n 0) (ofZ 10)
  end.

(** The string [x.toFixed(1)] returns, by its syntactic form:
    [FixedDecimal s n] is the sign [s] followed by the digits of [n] with
    a period before the last one. *)
Inductive FixedString : Type :=
| FixedNaN
| FixedInfinity (neg : bool)
| FixedDecimal (neg : bool) (n : N)
| FixedExponential (x : number).

Definition pow2 (e : Z) : Z := 2 ^ Z.max e 0.

(** [Number.prototype.toFixed(1)]: for a finite [x] below 10^21 in
    magnitude, the integer [n] for which [n / 10 - |x|] is closest to
    zero, the larger one when there are two; the sign is that of [x],
    and [-0] prints as [0.0]. *)
Definition toFixed1 (x : number) : FixedString :=
  match x with
  | S754_nan => FixedNaN
  | S754_infinity s => FixedInfinity s
  | S754_zero _ => FixedDecimal false 0
  | S754_finite s m e =>
      if 10 ^ 21 * pow2 (- e) <=? Z.pos m * pow2 e
      then FixedExponential x
      else FixedDecimal s
             (Z.to_N ((20 * Z.pos m * pow2 e + pow2 (- e)) / (2 * pow2 (- e))))
  end.

(** [parseFloat] on the strings [toFixed] produces: the binary64 value
    nearest to the decimal. *)
Definition parseFloat (s : FixedString) : number :=
  match s with
  | FixedNaN => S754_nan
  | FixedInfinity neg => S754_infinity neg
  | FixedDecimal neg N0 => S754_zero neg
  | FixedDecimal neg (Npos n) => div (S754_finite neg n 0) (ofZ 10)
  | FixedExponential x => x
  end.

End JsNumber.

Import JsNumber.

(** ** JavaScript strings ****************************************************)

(** The role of a byte in UTF-8. *)
Inductive Utf8Byte : Type :=
| Utf8Single | Utf8Continuation | Utf8Lead2 | Utf8Lead3 | Utf8Lead4 | Utf8Invalid.

Definition utf8_byte (a : Ascii.ascii) : Utf8Byte :=
  let n := Ascii.nat_of_ascii a in
  if (n <? 128)%nat then Utf8Single
  else if (n <? 192)%nat then Utf8Continuation
  else if (n <? 194)%nat then Utf8Invalid
  else if (n <? 224)%nat then Utf8Lead2
  else if (n <? 240)%nat then Utf8Lead3
  else if (n <? 245)%nat then Utf8Lead4
  else Utf8Invalid.

Definition is_continuation (a : Ascii.ascii) : bool :=
  match utf8_byte a with Utf8Continuation => true | _ => false end.

(** [s.length] of the JavaScript string whose UTF-8 encoding is [s]: one
    UTF-16 code unit for a character of one to three bytes, two (a
    surrogate pair) for a character of four bytes.  A byte that starts no
    well-formed sequence counts one unit, the replacement character a
    decoder puts in its place. *)
Fixpoint utf16_length (s : string) : nat :=
  match s with
  | EmptyString => O
  | String a s1 =>
      match utf8_byte a, s1 with
      | Utf8Lead2, String b s2 =>
          if is_continuation b then S (utf16_length s2) else S (utf16_length s1)
      | Utf8Lead3, String b (String c s3) =>
          if is_continuation b && is_continuation c
          then S (utf16_length s3) else S (utf16_length s1)
      | Utf8Lead4, String b (String c (String d s4)) =>
          if is_continuation b && is_continuation c && is_continuation d
          then S (S (utf16_length s4)) else S (utf16_length s1)
      | _, _ => S (utf16_length s1)
      end
  end.

(** ** weatherTypes.ts ********************************************************)

Inductive WeatherStatus : Type := online | offline | outdated.

Inductive TemperatureUnit : Type := celsius | fahrenheit.

Record WeatherData : Type := {
  temperature : number;
  unit : string;
  location : string;
  timestamp : string;
  status : WeatherStatus;
  fetchedAt : Z;
}.

(** The object spread [{ ...d, status: s }]. *)
Definition with_status (d : WeatherData) (s : WeatherStatus) : WeatherData :=
  {| temperature := temperature d;
     unit := unit d;
     location := location d;
     timestamp := timestamp d;
     status := s;
     fetchedAt := fetchedAt d |}.

(** The template literal [`${unit}`] on a [TemperatureUnit]. *)
Definition unit_literal (u : TemperatureUnit) : string :=
  match u with
  | celsius => "celsius"
  | fahrenheit => "fahrenheit"
  end.

(** ** Errors, upstream responses and the world ********************************)

Record JsError : Type := {
  name : string;
  message : string;
  code : option string;
  (** [error.response?.data?.error?.message], present on a rejection that
      carries an upstream error body. *)
  response_error_message : option string;
}.

Definition Error (msg : string) : JsError :=
  {| name := "Error"; message := msg; code := None;
     response_error_message := None |}.

Definition TypeError (msg : string) : JsError :=
  {| name := "TypeError"; message := msg; code := None;
     response_error_message := None |}.

Module Upstream.

Record Current : Type := { temp_c : number }.
Record Location : Type := { name : string }.

(** [response.data] of a resolved request. *)
Record Data : Type := {
  current : option Current;
  location : option Location;
}.

(** What [axios.get] settles to: a rejection (network failure, timeout
    after 5000 ms, error status), or a response whose body may be empty. *)
Inductive AxiosResult : Type :=
| Rejected (msg : string) (upstream_message : option string)
| Resolved (data : option Data).

End Upstream.

Record CacheEntry : Type := {
  data : WeatherData;
  expiresAt : Z;
}.

(** The fields of the [WeatherCache] instance.  The timer handle
    [cleanupInterval] holds no data; the callback it runs is
    [WeatherCache.cleanup] below. *)
Record WeatherCacheState : Type := {
  cache : gmap string CacheEntry;
  lastRefreshTimes : gmap string Z;
}.

Record World : Type := {
  weatherCache : WeatherCacheState;
  (** [clock k]: the instant returned by the [k]-th clock reading. *)
  clock : nat -> Z;
  ticks : nat;
  (** [network k q]: how the [k]-th upstream request, for query [q],
      settles. *)
  network : nat -> string -> Upstream.AxiosResult;
  (** The queries sent upstream so far, oldest first. *)
  requests : list string;
  (** [config.weather.apiKey]; [None] when undefined. *)
  config_weather_apiKey : option string;
  (** Offset of local time from UTC at an instant, in milliseconds. *)
  localOffset : Z -> Z;
}.

Definition set_weatherCache (c : WeatherCacheState) (w : World) : World :=
  {| weatherCache := c; clock := clock w; ticks := ticks w;
     network := network w; requests := requests w;
     config_weather_apiKey := config_weather_apiKey w;
     localOffset := localOffset w |}.

Definition set_ticks (n : nat) (w : World) : World :=
  {| weatherCache := weatherCache w; clock := clock w; ticks := n;
     network := network w; requests := requests w;
     config_weather_apiKey := config_weather_apiKey w;
     localOffset := localOffset w |}.

Definition set_requests (l : list string) (w : World) : World :=
  {| weatherCache := weatherCache w; clock := clock w; ticks := ticks w;
     network := network w; requests := l;
     config_weather_apiKey := config_weather_apiKey w;
     localOffset := localOffset w |}.

(** The instant the next clock reading returns. *)
Definition now (w : World) : Z := clock w (ticks w).

(** ** Computations: state and exceptions **************************************)

Inductive Completion (A : Type) : Type :=
| Return (a : A)
| Throw (e : JsError).
Arguments Return {A} a.
Arguments Throw {A} e.

(** A computation runs from a world to a completion and a world, without
    interruption; see [getCurrentWeather_awaiting] for the suspension of a
    call at [await axios.get]. *)
Definition M (A : Type) : Type := World -> Completion A * World.

Definition ret {A} (a : A) : M A := fun w => (Return a, w).

Definition throw {A} (e : JsError) : M A := fun w => (Throw e, w).

Definition bind {A B} (m : M A) (k : A -> M B) : M B :=
  fun w =>
    match m w with
    | (Return a, w') => k a w'
    | (Throw e, w') => (Throw e, w')
    end.

Definition try_catch {A} (body : M A) (handler : JsError -> M A) : M A :=
  fun w =>
    match body w with
    | (Return a, w') => (Return a, w')
    | (Throw e, w') => handler e w'
    end.

Notation "x <- c1 ;; c2" := (bind c1 (fun x => c2))
  (at level 100, c1 at next level, right associativity).
Notation "c1 ;; c2" := (bind c1 (fun _ => c2))
  (at level 100, right associativity).

(** [Date.now()], and the instant of [new Date()]. *)
Definition Date_now : M Z :=
  fun w => (Return (now w), set_ticks (S (ticks w)) w).

(** A [Date] object: its instant and the local-time offset there. *)
Record JsDate : Type := { instant : Z; offset : Z }.

Definition new_Date : M JsDate :=
  fun w => (Return {| instant := now w; offset := localOffset w (now w) |},
            set_ticks (S (ticks w)) w).

Definition getHours (d : JsDate) : Z := ((instant d + offset d) / 3600000) mod 24.
Definition getMinutes (d : JsDate) : Z := ((instant d + offset d) / 60000) mod 60.

(** [n.toString().padStart(2, '0')] for the hour and the minute. *)
Definition padStart2 (n : Z) : string :=
  let s := pretty n in
  if (String.length s <? 2)%nat then "0" +:+ s else s.

(** Reading [config.weather.apiKey]. *)
Definition config_weather_apiKey' : M (option string) :=
  fun w => (Return (config_weather_apiKey w), w).

(** Truthiness of a possibly undefined string. *)
Definition truthy (s : option string) : bool :=
  match s with
  | None => false
  | Some s => negb (String.eqb s "")
  end.

(** [axios.get(`${apiUrl}/current.json`, { params: { key, q }, timeout })]. *)
Definition axios_get (q : string) : M (option Upstream.Data) :=
  fun w =>
    let w' := set_requests (requests w ++ [q]) w in
    match network w (length (requests w)) q with
    | Upstream.Rejected msg m =>
        (Throw {| name := "AxiosError"; message := msg; code := None;
                  response_error_message := m |}, w')
    | Upstream.Resolved d => (Return d, w')
    end.

(** ** instances/cache/weatherCache.ts *****************************************)

Module WeatherCache.

Definition this : M WeatherCacheState := fun w => (Return (weatherCache w), w).

Definition cache_set (key : string) (entry : CacheEntry) : M () :=
  fun w =>
    let c := weatherCache w in
    (Return tt,
     set_weatherCache {| cache := <[key := entry]> (cache c);
                         lastRefreshTimes := lastRefreshTimes c |} w).

Definition cache_delete (key : string) : M () :=
  fun w =>
    let c := weatherCache w in
    (Return tt,
     set_weatherCache {| cache := delete key (cache c);
                         lastRefreshTimes := lastRefreshTimes c |} w).

Definition get (key : string) : M (option WeatherData) :=
  c <- this ;;
  match cache c !! key with
  | None => ret None
  | Some entry =>
      t <- Date_now ;;
      if t >? expiresAt entry
      then cache_delete key ;; ret None
      else ret (Some (data entry))
  end.

Definition ttl : Z := 900000.

Definition set (key : string) (d : WeatherData) : M () :=
  t <- Date_now ;;
  let expiresAt := t + ttl in
  cache_set key {| data := d; expiresAt := expiresAt |}.

Definition setLastRefreshTime (location : string) (timestamp : Z) : M () :=
  fun w =>
    let c := weatherCache w in
    (Return tt,
     set_weatherCache {| cache := cache c;
                         lastRefreshTimes :=
                           <[location := timestamp]> (lastRefreshTimes c) |} w).

(** [this.lastRefreshTimes.get(location) || null]: a recorded instant of
    [0] is falsy and reads as [null]. *)
Definition getLastRefreshTime (location : string) : M (option Z) :=
  c <- this ;;
  match lastRefreshTimes c !! location with
  | Some t => if t =? 0 then ret None else ret (Some t)
  | None => ret None
  end.

Definition clear : M () :=
  fun w => (Return tt, set_weatherCache {| cache := ∅; lastRefreshTimes := ∅ |} w).

(** One iteration of the loop of the cleanup callback. *)
Definition cleanup_step (t : Z) (key : string) (entry : CacheEntry)
    (m : gmap string CacheEntry) : gmap string CacheEntry :=
  if t >? expiresAt entry then delete key m else m.

(** The callback [startCleanupInterval] hands to [setInterval]: one
    clock reading, then a loop over the entries of the map that deletes
    the expired ones.  A JavaScript [Map] may be deleted from while it is
    iterated: every entry present at the start is visited once.  The
    order of the visits ([map_fold] follows the keys, [Map] the
    insertions) does not matter, each step touching its own key only. *)
Definition cleanup : M () :=
  t <- Date_now ;;
  fun w =>
    let c := weatherCache w in
    (Return tt,
     set_weatherCache {| cache := map_fold (cleanup_step t) (cache c) (cache c);
                         lastRefreshTimes := lastRefreshTimes c |} w).

End WeatherCache.

(** ** services/weather/weatherService.ts **************************************)

Module weatherService.

Definition celsiusToFahrenheit (celsius : number) : number :=
  add (div (mul celsius (ofZ 9)) (ofZ 5)) (ofZ 32).

(** [`${location}_${unit}`]. *)
Definition cacheKey (location : string) (unit : TemperatureUnit) : string :=
  location +:+ "_" +:+ unit_literal unit.

(** The body of the [try] block of [fetchWeatherFromAPI]. *)
Definition fetchWeatherFromAPI_try (location : string) (unit : TemperatureUnit)
    : M WeatherData :=
  apiKey <- config_weather_apiKey' ;;
  if negb (truthy apiKey)
  then throw (Error "Weather API key not configured")
  else
     response_data <- axios_get location ;;
     match response_data with
     | None => throw (Error "Invalid API response format")
     | Some response_data =>
     match Upstream.current response_data with
     | None => throw (Error "Invalid API response format")
     | Some current =>
         let tempCelsius := Upstream.temp_c current in
         let temperature :=
           match unit with
           | fahrenheit => celsiusToFahrenheit tempCelsius
           | celsius => tempCelsius
           end in
         if ltb tempCelsius (ofZ (-90)) || gtb tempCelsius (ofZ 60)
         then throw (Error "Temperature value outside plausible range")
         else
           date <- new_Date ;;
           let timestamp :=
             "Updated at " +:+ padStart2 (getHours date) +:+ ":"
                           +:+ padStart2 (getMinutes date) in
           (* the object literal, its properties in source order *)
           let temperature' := parseFloat (toFixed1 temperature) in
           let unit' := match unit with celsius => "°C" | fahrenheit => "°F" end in
           location' <-
             match Upstream.location response_data with
             | None => throw (TypeError "Cannot read properties of undefined (reading 'name')")
             | Some l => ret (Upstream.name l)
             end ;;
           fetched <- Date_now ;;
           let weatherData :=
             {| temperature := temperature';
                unit := unit';
                location := location';
                timestamp := timestamp;
                status := online;
                fetchedAt := fetched |} in
           WeatherCache.set (cacheKey location unit) weatherData ;;
           refreshed <- Date_now ;;
           WeatherCache.setLastRefreshTime location refreshed ;;
           ret weatherData
     end
     end.

(** [error.response?.data?.error?.message || 'Failed to fetch weather data']. *)
Definition apiError (error : JsError) : JsError :=
  {| name := "Error";
     message := if truthy (response_error_message error)
                then default "" (response_error_message error)
                else "Failed to fetch weather data";
     code := Some "WEATHER_API_ERROR";
     response_error_message := None |}.

(** The [catch] clause of [fetchWeatherFromAPI]. *)
Definition fetchWeatherFromAPI_catch (location : string) (unit : TemperatureUnit)
    (error : JsError) : M WeatherData :=
  cachedData <- WeatherCache.get (cacheKey location unit) ;;
  match cachedData with
  | Some cachedData => ret (with_status cachedData offline)
  | None => throw (apiError error)
  end.

Definition fetchWeatherFromAPI (location : string) (unit : TemperatureUnit)
    : M WeatherData :=
  try_catch (fetchWeatherFromAPI_try location unit)
            (fetchWeatherFromAPI_catch location unit).

Definition getCurrentWeather (location : string) (unit : TemperatureUnit)
    : M WeatherData :=
  cachedData <- WeatherCache.get (cacheKey location unit) ;;
  match cachedData with
  | Some cachedData =>
      t <- Date_now ;;
      let cacheAge := t - fetchedAt cachedData in
      let isOutdated := cacheAge >? 3600000 in
      ret (with_status cachedData (if isOutdated then outdated else online))
  | None => fetchWeatherFromAPI location unit
  end.

Definition refreshWeather (location : string) (unit : TemperatureUnit)
    : M WeatherData :=
  fetchWeatherFromAPI location unit.

Definition checkRefreshEligibility (location : string) : M bool :=
  lastRefresh <- WeatherCache.getLastRefreshTime location ;;
  match lastRefresh with
  | None => ret true
  | Some lastRefresh =>
      t <- Date_now ;;
      let timeSinceRefresh := t - lastRefresh in
      ret (timeSinceRefresh >=? 30000)
  end.

End weatherService.

(** ** utils/response.ts and api/v1/external/weather/controller.ts *************)

(** The JSON bodies; [stamp] is the instant [new Date()] read when the body
    was built (its ISO rendering is not modelled). *)
Inductive ResponseBody : Type :=
| SuccessResponse (d : WeatherData) (stamp : Z)
| ErrorResponse (code message : string) (stamp : Z).

Definition successResponse (d : WeatherData) : M ResponseBody :=
  t <- Date_now ;; ret (SuccessResponse d t).

Definition errorResponse (code message : string) : M ResponseBody :=
  t <- Date_now ;; ret (ErrorResponse code message t).

(** What a handler does with its request: it sends a response with a
    status code, or hands an error to [next]. *)
Inductive Handled : Type :=
| Sent (statusCode : Z) (body : ResponseBody)
| Next (e : JsError).

Module controller.

(** The fields of [req.query] / [req.body] the handlers read; [None] is
    an absent field. *)
Record Input : Type := {
  input_location : option string;
  input_unit : option string;
}.

Definition ZodError : JsError :=
  {| name := "ZodError"; message := "Invalid input"; code := None;
     response_error_message := None |}.

(** [z.string().min(1).max(50)]. *)
Definition parse_location (v : option string) : M string :=
  match v with
  | Some s =>
      if ((1 <=? utf16_length s) && (utf16_length s <=? 50))%nat
      then ret s else throw ZodError
  | None => throw ZodError
  end.

(** [z.enum(['celsius', 'fahrenheit']).optional().default('celsius')]. *)
Definition parse_unit (v : option string) : M TemperatureUnit :=
  match v with
  | None => ret celsius
  | Some s =>
      if String.eqb s "celsius" then ret celsius
      else if String.eqb s "fahrenheit" then ret fahrenheit
      else throw ZodError
  end.

Definition schema_parse (i : Input) : M (string * TemperatureUnit) :=
  l <- parse_location (input_location i) ;;
  u <- parse_unit (input_unit i) ;;
  ret (l, u).

(** The [catch] clause shared by the two handlers. *)
Definition on_error (error : JsError) : M Handled :=
  if String.eqb (name error) "ZodError" then
    b <- errorResponse "VALIDATION_ERROR" "Invalid request parameters" ;;
    ret (Sent 400 b)
  else if bool_decide (code error = Some "WEATHER_API_ERROR") then
    b <- errorResponse "WEATHER_API_ERROR" (message error) ;;
    ret (Sent 502 b)
  else ret (Next error).

Definition getCurrentWeather (req : Input) : M Handled :=
  try_catch
    (validated <- schema_parse req ;;
     weatherData <- weatherService.getCurrentWeather (fst validated) (snd validated) ;;
     b <- successResponse weatherData ;;
     ret (Sent 200 b))
    on_error.

Definition refreshWeather (req : Input) : M Handled :=
  try_catch
    (validated <- schema_parse req ;;
     canRefresh <- weatherService.checkRefreshEligibility (fst validated) ;;
     if negb canRefresh then
       b <- errorResponse "RATE_LIMIT_ERROR"
              "Please wait at least 30 seconds between manual updates" ;;
       ret (Sent 429 b)
     else
       weatherData <- weatherService.refreshWeather (fst validated) (snd validated) ;;
       b <- successResponse weatherData ;;
       ret (Sent 200 b))
    on_error.

End controller.

(** ** Notions used in the statements *******************************************)

(** The world after a clock reading. *)
Definition tick (w : World) : World := set_ticks (S (ticks w)) w.

(** The world with the [cache] field of the singleton replaced. *)
Definition with_cache (m : gmap string CacheEntry) (w : World) : World :=
  set_weatherCache {| cache := m;
                      lastRefreshTimes := lastRefreshTimes (weatherCache w) |} w.

(** The world once the upstream request for [location] has been sent. *)
Definition requested (location : string) (w : World) : World :=
  set_requests (requests w ++ [location]) w.

(** The snapshot the [try] block builds from an upstream reading, with the
    clock readings it takes in world [w]. *)
Definition fresh_snapshot (unit : TemperatureUnit) (tempCelsius : number)
    (locationName : string) (w : World) : WeatherData :=
  let date := {| instant := now w; offset := localOffset w (now w) |} in
  {| temperature :=
       parseFloat (toFixed1 match unit with
                            | fahrenheit => weatherService.celsiusToFahrenheit tempCelsius
                            | celsius => tempCelsius
                            end);
     unit := match unit with celsius => "°C" | fahrenheit => "°F" end;
     location := locationName;
     timestamp := "Updated at " +:+ padStart2 (getHours date) +:+ ":"
                                +:+ padStart2 (getMinutes date);
     status := online;
     fetchedAt := clock w (S (ticks w)) |}.

(** The world after a successful [try] block that started in [w] and
    stored [d]. *)
Definition stored (location : string) (unit : TemperatureUnit) (d : WeatherData)
    (w : World) : World :=
  set_weatherCache
    {| cache := <[weatherService.cacheKey location unit :=
                   {| data := d; expiresAt := clock w (2 + ticks w)%nat + 900000 |}]>
                 (cache (weatherCache w));
       lastRefreshTimes := <[location := clock w (3 + ticks w)%nat]>
                             (lastRefreshTimes (weatherCache w)) |}
    (set_ticks (4 + ticks w)%nat (requested location w)).

(** The guard of the [try] block on the Celsius reading. *)
Definition implausible (tempCelsius : number) : bool :=
  ltb tempCelsius (ofZ (-90)) || gtb tempCelsius (ofZ 60).

(** [x] is zero, or finite and below [2 ^ k] in magnitude. *)
Definition below (k : Z) (x : number) : Prop :=
  match x with
  | S754_zero _ => True
  | S754_finite _ m e => Z.pos m < 2 ^ (k - e)
  | _ => False
  end.

(** Rounding to one decimal place: [n] is the number of tenths nearest
    to the magnitude [m * 2^e] of [x], the larger of two equally near
    ([n <= 10 * |x| + 1/2 < n + 1], cleared of denominators), and [s] is
    the sign of [x]; a zero has no sign and no tenths. *)
Definition nearest_tenths (x : number) (s : bool) (n : N) : Prop :=
  match x with
  | S754_zero _ => s = false /\ n = 0%N
  | S754_finite sx m e =>
      s = sx
      /\ 2 * pow2 (- e) * Z.of_N n <= 20 * Z.pos m * pow2 e + pow2 (- e)
         < 2 * pow2 (- e) * (Z.of_N n + 1)
  | _ => False
  end.

(** The ways the [try] block of a fetch for [loc] fails in world [w], in
    source order: no API key, a rejected request (network failure,
    timeout, error status), an empty body or a body without [current], an
    implausible reading, a body without [location]. *)
Inductive attempt_fails (loc : string) (w : World) : Prop :=
| fails_no_api_key :
    truthy (config_weather_apiKey w) = false -> attempt_fails loc w
| fails_rejected (msg : string) (m : option string) :
    truthy (config_weather_apiKey w) = true ->
    network w (length (requests w)) loc = Upstream.Rejected msg m ->
    attempt_fails loc w
| fails_empty_body :
    truthy (config_weather_apiKey w) = true ->
    network w (length (requests w)) loc = Upstream.Resolved None ->
    attempt_fails loc w
| fails_no_current (d : Upstream.Data) :
    truthy (config_weather_apiKey w) = true ->
    network w (length (requests w)) loc = Upstream.Resolved (Some d) ->
    Upstream.current d = None ->
    attempt_fails loc w
| fails_implausible (d : Upstream.Data) (c : Upstream.Current) :
    truthy (config_weather_apiKey w) = true ->
    network w (length (requests w)) loc = Upstream.Resolved (Some d) ->
    Upstream.current d = Some c ->
    implausible (Upstream.temp_c c) = true ->
    attempt_fails loc w
| fails_no_location (d : Upstream.Data) (c : Upstream.Current) :
    truthy (config_weather_apiKey w) = true ->
    network w (length (requests w)) loc = Upstream.Resolved (Some d) ->
    Upstream.current d = Some c ->
    implausible (Upstream.temp_c c) = false ->
    Upstream.location d = None ->
    attempt_fails loc w.

(** A well-formed request for [loc] in unit [u]. *)
Definition request_for (loc : string) (u : TemperatureUnit) : controller.Input :=
  {| controller.input_location := Some loc;
     controller.input_unit := Some (unit_literal u) |}.

Definition rate_limited (stamp : Z) : Handled :=
  Sent 429 (ErrorResponse "RATE_LIMIT_ERROR"
              "Please wait at least 30 seconds between manual updates" stamp).

(** The world with other recorded refresh instants. *)
Definition with_lastRefreshTimes (m : gmap string Z) (w : World) : World :=
  set_weatherCache {| cache := cache (weatherCache w); lastRefreshTimes := m |} w.

(** ** Sample worlds **********************************************************)

Module Sample.

(** An upstream answer with Celsius reading [t] for the place [place]. *)
Definition answer (t : number) (place : string) : Upstream.Data :=
  {| Upstream.current := Some {| Upstream.temp_c := t |};
     Upstream.location := Some {| Upstream.name := place |} |}.

Definition timeout : Upstream.AxiosResult :=
  Upstream.Rejected "timeout of 5000ms exceeded" None.

Definition timeout_error : JsError :=
  {| name := "AxiosError"; message := "timeout of 5000ms exceeded"; code := None;
     response_error_message := None |}.

(** The upstream answers the first request and times out afterwards. *)
Definition first_only (d : Upstream.Data) : nat -> string -> Upstream.AxiosResult :=
  fun k _ => match k with O => Upstream.Resolved (Some d) | _ => timeout end.

(** The upstream answers every request. *)
Definition always (d : Upstream.Data) : nat -> string -> Upstream.AxiosResult :=
  fun _ _ => Upstream.Resolved (Some d).

(** Clock readings one second apart, from 2023-11-14 22:13:20 UTC. *)
Definition steady (k : nat) : Z := 1700000000000 + 1000 * Z.of_nat k.

(** The same with a pause of [pause] milliseconds before reading [k0]. *)
Definition paused (k0 : nat) (pause : Z) (k : nat) : Z :=
  if (k <? k0)%nat then steady k else steady k + pause.

(** A process that has just started, in a time zone 9 hours east. *)
Definition fresh (clock : nat -> Z) (network : nat -> string -> Upstream.AxiosResult)
    : World :=
  {| weatherCache := {| cache := ∅; lastRefreshTimes := ∅ |};
     clock := clock;
     ticks := 0;
     network := network;
     requests := [];
     config_weather_apiKey := Some "key";
     localOffset := fun _ => 32400000 |}.

(** The snapshot of a first fetch of ("Tokyo", celsius) at 18.5 degrees. *)
Definition tokyo_snapshot : WeatherData :=
  {| temperature := ofTenths 185;
     unit := "°C";
     location := "Tokyo";
     timestamp := "Updated at 07:13";
     status := online;
     fetchedAt := 1700000001000 |}.

Definition tokyo_entry : CacheEntry :=
  {| data := tokyo_snapshot; expiresAt := 1700000902000 |}.

(** After that fetch; the upstream is down from then on. *)
Definition tokyo_cached : World :=
  snd (weatherService.fetchWeatherFromAPI "Tokyo" celsius
         (fresh steady (first_only (answer (ofTenths 185) "Tokyo")))).

(** The same, 16 minutes later: the entry has outlived its TTL. *)
Definition tokyo_expired : World :=
  snd (weatherService.fetchWeatherFromAPI "Tokyo" celsius
         (fresh (paused 4 960000) (first_only (answer (ofTenths 185) "Tokyo")))).

(** The same as [tokyo_cached], where the process is suspended for two
    hours between the two clock readings of a lookup. *)
Definition tokyo_stalled : World :=
  snd (weatherService.fetchWeatherFromAPI "Tokyo" celsius
         (fresh (paused 5 7200000) (first_only (answer (ofTenths 185) "Tokyo")))).

(** A fresh process in which the Tokyo snapshot has just been stored. *)
Definition tokyo_set : World :=
  snd (WeatherCache.set "Tokyo_celsius" tokyo_snapshot
         (fresh steady (first_only (answer (ofTenths 185) "Tokyo")))).

(** The process before the first fetch of Tokyo, on the steady clock. *)
Definition tokyo_fresh : World :=
  fresh steady (first_only (answer (ofTenths 185) "Tokyo")).

(** A fresh process whose upstream refuses every request with a message. *)
Definition refused : World :=
  fresh steady
    (fun _ _ => Upstream.Rejected "Request failed with status code 400"
                  (Some "No matching location found.")).

(** A fresh process whose upstream reports [t] degrees Celsius in Paris. *)
Definition reading (t : number) : World := fresh steady (always (answer t "Paris")).

End Sample.

(** ** The running process ****************************************************)

(** The unit symbol a snapshot carries for a requested unit. *)
Definition unit_symbol (u : TemperatureUnit) : string :=
  match u with celsius => "°C" | fahrenheit => "°F" end.

(** What happens to the process: a request reaches one of the two
    handlers, a module calls an exported service function, the cleanup
    timer fires, or the cache is cleared.  The cache singleton is written
    by these only: no other code of the repository calls its methods. *)
Inductive Operation : Type :=
| HandleGetCurrentWeather (req : controller.Input)
| HandleRefreshWeather (req : controller.Input)
| CallGetCurrentWeather (loc : string) (u : TemperatureUnit)
| CallRefreshWeather (loc : string) (u : TemperatureUnit)
| CallCheckRefreshEligibility (loc : string)
| CleanupTimer
| CallClear.

Definition perform (o : Operation) (w : World) : World :=
  match o with
  | HandleGetCurrentWeather req => snd (controller.getCurrentWeather req w)
  | HandleRefreshWeather req => snd (controller.refreshWeather req w)
  | CallGetCurrentWeather loc u => snd (weatherService.getCurrentWeather loc u w)
  | CallRefreshWeather loc u => snd (weatherService.refreshWeather loc u w)
  | CallCheckRefreshEligibility loc => snd (weatherService.checkRefreshEligibility loc w)
  | CleanupTimer => snd (WeatherCache.cleanup w)
  | CallClear => snd (WeatherCache.clear w)
  end.

(** The worlds a process started in [w0] can be in. *)
Inductive reachable (w0 : World) : World -> Prop :=
| reachable_start : reachable w0 w0
| reachable_step (w : World) (o : Operation) :
    reachable w0 w -> reachable w0 (perform o w).

(** The state the constructor of [WeatherCache] leaves: two empty maps. *)
Definition started (w : World) : Prop :=
  cache (weatherCache w) = ∅ /\ lastRefreshTimes (weatherCache w) = ∅.

(** What holds of every entry of the cache and of every recorded refresh
    instant, in terms of the clock readings taken so far: an entry is an
    [online] snapshot stored under the key of its location and unit, its
    [fetchedAt] and its [expiresAt - 15 min] are two consecutive readings,
    and a later reading is recorded as the refresh instant of its
    location. *)
Definition store_inv (w : World) : Prop :=
  (forall (key : string) (e : CacheEntry),
      cache (weatherCache w) !! key = Some e ->
      status (data e) = online
      /\ exists (loc : string) (u : TemperatureUnit) (j i : nat),
           key = weatherService.cacheKey loc u
           /\ unit (data e) = unit_symbol u
           /\ fetchedAt (data e) = clock w j
           /\ expiresAt e = clock w (S j) + 900000
           /\ lastRefreshTimes (weatherCache w) !! loc = Some (clock w i)
           /\ (S j < i < ticks w)%nat)
  /\ (forall (loc : string) (t : Z),
         lastRefreshTimes (weatherCache w) !! loc = Some t ->
         exists i : nat, (i < ticks w)%nat /\ t = clock w i).

(** A world that differs from an earlier one by clock readings taken,
    requests sent and cache entries deleted. *)
Definition shrinks (w w' : World) : Prop :=
  clock w' = clock w
  /\ (ticks w <= ticks w')%nat
  /\ lastRefreshTimes (weatherCache w') = lastRefreshTimes (weatherCache w)
  /\ (forall (k : string) (e : CacheEntry),
         cache (weatherCache w') !! k = Some e ->
         cache (weatherCache w) !! k = Some e).

(** The 400 and 502 responses of the handlers. *)
Definition validation_error (stamp : Z) : Handled :=
  Sent 400 (ErrorResponse "VALIDATION_ERROR" "Invalid request parameters" stamp).

Definition gateway_error (msg : string) (stamp : Z) : Handled :=
  Sent 502 (ErrorResponse "WEATHER_API_ERROR" msg stamp).

(** The requests the schema of the handlers refuses: no location, an
    empty one or one of more than 50 UTF-16 code units, or a unit that is
    neither of the two literals. *)
Definition invalid_request (req : controller.Input) : Prop :=
  controller.input_location req = None
  \/ (exists s, controller.input_location req = Some s
                /\ (utf16_length s = 0 \/ 50 < utf16_length s)%nat)
  \/ (exists v, controller.input_unit req = Some v
                /\ v <> "celsius" /\ v <> "fahrenheit").

(** Equality of two numbers as data (sign, mantissa and exponent), which
    tells [-0] from [0]. *)
Definition number_eqb (x y : number) : bool :=
  match x, y with
  | S754_zero s, S754_zero s' => Bool.eqb s s'
  | S754_infinity s, S754_infinity s' => Bool.eqb s s'
  | S754_nan, S754_nan => true
  | S754_finite s m e, S754_finite s' m' e' =>
      Bool.eqb s s' && Pos.eqb m m' && Z.eqb e e'
  | _, _ => false
  end.

(** The tenths of the Fahrenheit value of [n] tenths of a degree Celsius,
    in exact arithmetic: the integer nearest to [(9 * n + 1600) / 5]
    (there is no tie). *)
Definition fahrenheit_tenths (n : Z) : Z := (18 * n + 3205) / 10.

(** What the snapshot of a one-decimal Celsius reading must hold, checked
    on one reading: the guard passes, the Celsius value is stored as it
    is, and the Fahrenheit value is the exact one, [-0] standing for a
    value that rounds to zero from below. *)
Definition one_decimal_reading_ok (n : Z) : bool :=
  let C := ofTenths n in
  let F := parseFloat (toFixed1 (weatherService.celsiusToFahrenheit C)) in
  negb (implausible C)
  && number_eqb (parseFloat (toFixed1 C)) C
  && (number_eqb F (ofTenths (fahrenheit_tenths n))
      || (fahrenheit_tenths n =? 0) && number_eqb F (S754_zero true)).

(** A clock that never goes back. *)
Definition monotone (w : World) : Prop :=
  forall i j : nat, (i <= j)%nat -> clock w i <= clock w j.

(** ** Suspension at [await axios.get] ****************************************)

(** A computation in [M] runs to completion.  The real call is suspended
    at [await axios.get], and other requests are served on the same
    [weatherCache] while the upstream request is in flight.  The variants
    below take what the others do to the world meanwhile, [during], and
    apply it between the sending of the request and the statement after
    the [await]; everything else in the two functions is synchronous.
    With [during] doing nothing they are the functions of the service. *)
Definition axios_get_awaiting (during : World -> World) (q : string)
    : M (option Upstream.Data) :=
  fun w =>
    let w' := during (set_requests (requests w ++ [q]) w) in
    match network w (length (requests w)) q with
    | Upstream.Rejected msg m =>
        (Throw {| name := "AxiosError"; message := msg; code := None;
                  response_error_message := m |}, w')
    | Upstream.Resolved d => (Return d, w')
    end.

Definition fetchWeatherFromAPI_try_awaiting (during : World -> World)
    (location : string) (unit : TemperatureUnit) : M WeatherData :=
  apiKey <- config_weather_apiKey' ;;
  if negb (truthy apiKey)
  then throw (Error "Weather API key not configured")
  else
    response_data <- axios_get_awaiting during location ;;
    match response_data with
    | None => throw (Error "Invalid API response format")
    | Some response_data =>
    match Upstream.current response_data with
    | None => throw (Error "Invalid API response format")
    | Some current =>
        let tempCelsius := Upstream.temp_c current in
        let temperature :=
          match unit with
          | fahrenheit => weatherService.celsiusToFahrenheit tempCelsius
          | celsius => tempCelsius
          end in
        if ltb tempCelsius (ofZ (-90)) || gtb tempCelsius (ofZ 60)
        then throw (Error "Temperature value outside plausible range")
        else
          date <- new_Date ;;
          let timestamp :=
            "Updated at " +:+ padStart2 (getHours date) +:+ ":"
                          +:+ padStart2 (getMinutes date) in
          let temperature' := parseFloat (toFixed1 temperature) in
          let unit' := match unit with celsius => "°C" | fahrenheit => "°F" end in
          location' <-
            match Upstream.location response_data with
            | None => throw (TypeError "Cannot read properties of undefined (reading 'name')")
            | Some l => ret (Upstream.name l)
            end ;;
          fetched <- Date_now ;;
          let weatherData :=
            {| temperature := temperature';
               unit := unit';
               location := location';
               timestamp := timestamp;
               status := online;
               fetchedAt := fetched |} in
          WeatherCache.set (weatherService.cacheKey location unit) weatherData ;;
          refreshed <- Date_now ;;
          WeatherCache.setLastRefreshTime location refreshed ;;
          ret weatherData
    end
    end.

Definition fetchWeatherFromAPI_awaiting (during : World -> World)
    (location : string) (unit : TemperatureUnit) : M WeatherData :=
  try_catch (fetchWeatherFromAPI_try_awaiting during location unit)
            (weatherService.fetchWeatherFromAPI_catch location unit).

Definition getCurrentWeather_awaiting (during : World -> World)
    (location : string) (unit : TemperatureUnit) : M WeatherData :=
  cachedData <- WeatherCache.get (weatherService.cacheKey location unit) ;;
  match cachedData with
  | Some cachedData =>
      t <- Date_now ;;
      let cacheAge := t - fetchedAt cachedData in
      let isOutdated := cacheAge >? 3600000 in
      ret (with_status cachedData (if isOutdated then outdated else online))
  | None => fetchWeatherFromAPI_awaiting during location unit
  end.

(** The world after the synchronous block that follows a successful
    [await], entered in world [w], has stored [d]. *)
Definition stored_from (location : string) (unit : TemperatureUnit)
    (d : WeatherData) (w : World) : World :=
  set_weatherCache
    {| cache := <[weatherService.cacheKey location unit :=
                   {| data := d; expiresAt := clock w (2 + ticks w)%nat + 900000 |}]>
                 (cache (weatherCache w));
       lastRefreshTimes := <[location := clock w (3 + ticks w)%nat]>
                             (lastRefreshTimes (weatherCache w)) |}
    (set_ticks (4 + ticks w)%nat w).

Module Race.




End Race.

(** * Properties ***************************************************************)

(** ** Equations of the cache methods *)

Lemma get_eq (key : string) (w : World) :
  WeatherCache.get key w =
  match cache (weatherCache w) !! key with
  | None => (Return None, w)
  | Some entry =>
      if now w >? expiresAt entry
      then (Return None, with_cache (delete key (cache (weatherCache w))) (tick w))
      else (Return (Some (data entry)), tick w)
  end.
Proof.
  unfold WeatherCache.get, WeatherCache.this, bind.
  destruct (cache (weatherCache w) !! key) as [entry|]; [|reflexivity].
  cbn. destruct (now w >? expiresAt entry); reflexivity.
Qed.

Lemma set_eq (key : string) (d : WeatherData) (w : World) :
  WeatherCache.set key d w =
  (Return tt,
   with_cache (<[key := {| data := d; expiresAt := now w + 900000 |}]>
                 (cache (weatherCache w))) (tick w)).
Proof. reflexivity. Qed.

(** C2. An entry stored by [set] at instant [t] expires at [t + 15 min] and
    replaces whatever was stored under the key, leaving the other keys and
    the refresh times alone.  While that entry is the one stored under the
    key, [get] at instant [now] returns the stored snapshot and leaves the
    store as it is when [now <= t + 15 min]; when [now > t + 15 min] it
    returns nothing and deletes the entry. *)
Theorem C2_get_set_ttl (w w' : World) (key : string) (d : WeatherData) :
  let stored := {| data := d; expiresAt := now w + 900000 |} in
  let w1 := snd (WeatherCache.set key d w) in
  let r := WeatherCache.get key w' in
  cache (weatherCache w') !! key = Some stored ->
  (cache (weatherCache w1) !! key = Some stored
   /\ cache (weatherCache w1) = <[key := stored]> (cache (weatherCache w))
   /\ lastRefreshTimes (weatherCache w1) = lastRefreshTimes (weatherCache w))
  /\ (now w' <= now w + 900000 ->
      fst r = Return (Some d) /\ weatherCache (snd r) = weatherCache w')
  /\ (now w' > now w + 900000 ->
      fst r = Return None
      /\ cache (weatherCache (snd r)) = delete key (cache (weatherCache w'))
      /\ cache (weatherCache (snd r)) !! key = None
      /\ lastRefreshTimes (weatherCache (snd r)) = lastRefreshTimes (weatherCache w')).
Proof.
  intros stored w1 r Hentry. subst w1 r. rewrite set_eq, get_eq, Hentry. cbn.
  split; [|split].
  - split; [apply lookup_insert_eq | split; reflexivity].
  - intros Hle. destruct (Z.gtb_spec (now w') (now w + 900000)); [lia|].
    cbn. split; [reflexivity | by destruct (weatherCache w')].
  - intros Hgt. destruct (Z.gtb_spec (now w') (now w + 900000)); [|lia].
    cbn. repeat split; try reflexivity. apply lookup_delete_eq.
Qed.

(** ** The periodic sweep *)

Lemma cleanup_fold_lookup (t : Z) (b m : gmap string CacheEntry) (key : string) :
  map_fold (WeatherCache.cleanup_step t) b m !! key =
  match m !! key with
  | Some e => if t >? expiresAt e then None else b !! key
  | None => b !! key
  end.
Proof.
  revert key.
  apply (map_fold_weak_ind
           (fun r m' => forall key,
                r !! key = match m' !! key with
                           | Some e => if t >? expiresAt e then None else b !! key
                           | None => b !! key
                           end)).
  - intros key. by rewrite lookup_empty.
  - intros i x m' r Hi IH key. unfold WeatherCache.cleanup_step.
    destruct (decide (i = key)) as [->|Hne].
    + rewrite lookup_insert_eq. destruct (t >? expiresAt x).
      * apply lookup_delete_eq.
      * by rewrite IH, Hi.
    + rewrite lookup_insert_ne by done. rewrite <- IH.
      destruct (t >? expiresAt x); [by apply lookup_delete_ne | done].
Qed.

(** C7. One run of the sweep at instant [now]: an entry is in the store
    afterwards exactly when it was there before with [expiresAt >= now]
    (an entry with [expiresAt < now] is gone, read or not), the retained
    entries are unchanged, and the refresh times are untouched. *)
Theorem C7_sweep (w : World) :
  let w' := snd (WeatherCache.cleanup w) in
  fst (WeatherCache.cleanup w) = Return tt
  /\ (forall key : string,
         cache (weatherCache w') !! key =
         match cache (weatherCache w) !! key with
         | Some e => if expiresAt e <? now w then None else Some e
         | None => None
         end)
  /\ lastRefreshTimes (weatherCache w') = lastRefreshTimes (weatherCache w).
Proof.
  cbn. split; [reflexivity | split; [|reflexivity]].
  intros key. rewrite cleanup_fold_lookup.
  destruct (cache (weatherCache w) !! key) as [e|] eqn:He; [|reflexivity].
  rewrite Z.gtb_ltb. by destruct (expiresAt e <? now w).
Qed.

(** ** Cache keys *)

Lemma list_ascii_of_string_app (s1 s2 : string) :
  String.list_ascii_of_string (s1 +:+ s2) =
  (String.list_ascii_of_string s1 ++ String.list_ascii_of_string s2)%list.
Proof.
  induction s1 as [|a s1 IH]; [reflexivity|].
  change (String a s1 +:+ s2) with (String a (s1 +:+ s2)).
  cbn [String.list_ascii_of_string]. by rewrite IH.
Qed.

Lemma list_ascii_of_string_inj (s1 s2 : string) :
  String.list_ascii_of_string s1 = String.list_ascii_of_string s2 -> s1 = s2.
Proof.
  intros H. rewrite <- (String.string_of_list_ascii_of_string s1),
              <- (String.string_of_list_ascii_of_string s2). by rewrite H.
Qed.

Lemma cacheKey_inj (l1 l2 : string) (u1 u2 : TemperatureUnit) :
  weatherService.cacheKey l1 u1 = weatherService.cacheKey l2 u2 ->
  l1 = l2 /\ u1 = u2.
Proof.
  unfold weatherService.cacheKey. intros H.
  apply (f_equal String.list_ascii_of_string) in H.
  rewrite !list_ascii_of_string_app in H.
  destruct u1, u2; cbn in H.
  - apply app_inj_2 in H as [H _]; [|reflexivity].
    split; [by apply list_ascii_of_string_inj | reflexivity].
  - apply (f_equal (@rev _)) in H. rewrite !rev_app_distr in H. cbn in H. discriminate.
  - apply (f_equal (@rev _)) in H. rewrite !rev_app_distr in H. cbn in H. discriminate.
  - apply app_inj_2 in H as [H _]; [|reflexivity].
    split; [by apply list_ascii_of_string_inj | reflexivity].
Qed.

(** ** Equations of the fetch-and-store path *)

Lemma fetch_try_eq (location : string) (unit : TemperatureUnit) (w : World) :
  weatherService.fetchWeatherFromAPI_try location unit w =
  if negb (truthy (config_weather_apiKey w))
  then (Throw (Error "Weather API key not configured"), w)
  else
    match network w (length (requests w)) location with
    | Upstream.Rejected msg m =>
        (Throw {| name := "AxiosError"; message := msg; code := None;
                  response_error_message := m |}, requested location w)
    | Upstream.Resolved None =>
        (Throw (Error "Invalid API response format"), requested location w)
    | Upstream.Resolved (Some d) =>
        match Upstream.current d with
        | None => (Throw (Error "Invalid API response format"), requested location w)
        | Some c =>
            if implausible (Upstream.temp_c c)
            then (Throw (Error "Temperature value outside plausible range"),
                  requested location w)
            else
              match Upstream.location d with
              | None =>
                  (Throw (TypeError "Cannot read properties of undefined (reading 'name')"),
                   tick (requested location w))
              | Some l =>
                  let wd := fresh_snapshot unit (Upstream.temp_c c) (Upstream.name l) w in
                  (Return wd, stored location unit wd w)
              end
        end
    end.
Proof.
  unfold weatherService.fetchWeatherFromAPI_try, bind, config_weather_apiKey', axios_get,
    implausible.
  destruct (negb (truthy (config_weather_apiKey w))); [reflexivity|].
  destruct (network w (length (requests w)) location) as [msg m|[d|]];
    [reflexivity| |reflexivity].
  destruct (Upstream.current d) as [c|]; [|reflexivity].
  destruct (ltb (Upstream.temp_c c) (ofZ (-90)) || gtb (Upstream.temp_c c) (ofZ 60));
    [reflexivity|].
  destruct (Upstream.location d) as [l|]; reflexivity.
Qed.

Lemma throw_inv {A} (m : M A) (w : World) (e : JsError) :
  fst (m w) = Throw e -> m w = (Throw e, snd (m w)).
Proof. destruct (m w) as [r w1]. cbn. by intros ->. Qed.

(** A [try] block that throws has written nothing: it has at most sent
    the upstream request and read the clock once. *)
Lemma fetch_try_throw (location : string) (unit : TemperatureUnit)
    (w w1 : World) (e : JsError) :
  weatherService.fetchWeatherFromAPI_try location unit w = (Throw e, w1) ->
  weatherCache w1 = weatherCache w
  /\ clock w1 = clock w
  /\ (w1 = w \/ w1 = requested location w \/ w1 = tick (requested location w)).
Proof.
  rewrite fetch_try_eq. intros H.
  repeat match type of H with
         | (if ?b then _ else _) = _ => destruct b
         | match ?x with _ => _ end = _ => destruct x
         end;
    cbn in H; inversion H; subst; cbn; auto.
Qed.

(** The [try] block throws exactly in the cases of [attempt_fails]. *)
Lemma fetch_try_throws_iff (loc : string) (u : TemperatureUnit) (w : World) :
  (exists e, fst (weatherService.fetchWeatherFromAPI_try loc u w) = Throw e)
  <-> attempt_fails loc w.
Proof.
  rewrite fetch_try_eq. split.
  - intros [e He].
    destruct (truthy (config_weather_apiKey w)) eqn:Hkey;
      [|by apply fails_no_api_key].
    cbn [negb] in He.
    destruct (network w (length (requests w)) loc) as [msg m|[d|]] eqn:Hnet;
      [by eapply fails_rejected| |by apply fails_empty_body].
    destruct (Upstream.current d) as [c|] eqn:Hcur; [|by eapply fails_no_current].
    destruct (implausible (Upstream.temp_c c)) eqn:Himp;
      [by eapply fails_implausible|].
    destruct (Upstream.location d) as [l|] eqn:Hloc; [discriminate|].
    by eapply fails_no_location.
  - intros [Hkey|msg m Hkey Hnet|Hkey Hnet|d Hkey Hnet Hcur|d c Hkey Hnet Hcur Himp
            |d c Hkey Hnet Hcur Himp Hloc];
      rewrite Hkey; cbn [negb]; [by eexists|..]; rewrite Hnet; [by eexists..| | |];
      rewrite Hcur; [by eexists|..]; rewrite Himp; [by eexists|].
    rewrite Hloc. by eexists.
Qed.

Lemma fetch_catch_eq (location : string) (unit : TemperatureUnit)
    (e : JsError) (w : World) :
  weatherService.fetchWeatherFromAPI_catch location unit e w =
  let key := weatherService.cacheKey location unit in
  match cache (weatherCache w) !! key with
  | None => (Throw (weatherService.apiError e), w)
  | Some entry =>
      if now w >? expiresAt entry
      then (Throw (weatherService.apiError e),
            with_cache (delete key (cache (weatherCache w))) (tick w))
      else (Return (with_status (data entry) offline), tick w)
  end.
Proof.
  unfold weatherService.fetchWeatherFromAPI_catch, bind. rewrite get_eq. cbn zeta.
  destruct (cache (weatherCache w) !! weatherService.cacheKey location unit) as [entry|];
    [|reflexivity].
  destruct (now w >? expiresAt entry); reflexivity.
Qed.

Lemma fetch_failed_eq (location : string) (unit : TemperatureUnit)
    (w w1 : World) (e : JsError) :
  weatherService.fetchWeatherFromAPI_try location unit w = (Throw e, w1) ->
  weatherService.fetchWeatherFromAPI location unit w =
  weatherService.fetchWeatherFromAPI_catch location unit e w1.
Proof.
  intros H. unfold weatherService.fetchWeatherFromAPI, try_catch. by rewrite H.
Qed.

Lemma fetch_succeeded_eq (location : string) (unit : TemperatureUnit)
    (w w1 : World) (d : WeatherData) :
  weatherService.fetchWeatherFromAPI_try location unit w = (Return d, w1) ->
  weatherService.fetchWeatherFromAPI location unit w = (Return d, w1).
Proof.
  intros H. unfold weatherService.fetchWeatherFromAPI, try_catch. by rewrite H.
Qed.

Lemma apiError_code (e : JsError) :
  code (weatherService.apiError e) = Some "WEATHER_API_ERROR".
Proof. reflexivity. Qed.

(** C1, as the code has it.  When the fetch-and-store attempt fails, the
    fallback reads the cache with [get], which honours the TTL: a snapshot
    stored under the exact (location, unit) key that has not expired at
    the instant of the fallback lookup is returned with status [offline]
    and its other fields unchanged; when there is no snapshot under the
    key, or it has expired, an error with code WEATHER_API_ERROR is
    thrown, and no default value is returned. *)
Theorem C1_offline_fallback (loc : string) (u : TemperatureUnit)
    (w : World) (e : JsError) :
  fst (weatherService.fetchWeatherFromAPI_try loc u w) = Throw e ->
  let w1 := snd (weatherService.fetchWeatherFromAPI_try loc u w) in
  let key := weatherService.cacheKey loc u in
  let r := fst (weatherService.fetchWeatherFromAPI loc u w) in
  (forall entry, cache (weatherCache w) !! key = Some entry ->
     now w1 <= expiresAt entry ->
     exists d, r = Return d
       /\ status d = offline
       /\ temperature d = temperature (data entry)
       /\ unit d = unit (data entry)
       /\ location d = location (data entry)
       /\ timestamp d = timestamp (data entry)
       /\ fetchedAt d = fetchedAt (data entry))
  /\ (forall entry, cache (weatherCache w) !! key = Some entry ->
     now w1 > expiresAt entry ->
     r = Throw (weatherService.apiError e))
  /\ (cache (weatherCache w) !! key = None ->
     r = Throw (weatherService.apiError e))
  /\ code (weatherService.apiError e) = Some "WEATHER_API_ERROR".
Proof.
  intros Hfst w1 key r. apply throw_inv in Hfst as Hfail. fold w1 in Hfail. subst r.
  rewrite (fetch_failed_eq _ _ _ _ _ Hfail), fetch_catch_eq.
  destruct (fetch_try_throw _ _ _ _ _ Hfail) as (Hc & _ & _). rewrite Hc.
  fold key. cbn zeta.
  split; [|split; [|split]].
  - intros entry -> Hle.
    destruct (Z.gtb_spec (now w1) (expiresAt entry)); [lia|].
    eexists. split; [reflexivity|]. cbn. by repeat split.
  - intros entry -> Hgt.
    destruct (Z.gtb_spec (now w1) (expiresAt entry)); [reflexivity|lia].
  - by intros ->.
  - reflexivity.
Qed.

(** What a failed attempt leaves in the store. *)
Lemma fetch_failed_store (loc : string) (u : TemperatureUnit)
    (w w1 : World) (e : JsError) :
  weatherService.fetchWeatherFromAPI_try loc u w = (Throw e, w1) ->
  let key := weatherService.cacheKey loc u in
  let w2 := snd (weatherService.fetchWeatherFromAPI loc u w) in
  lastRefreshTimes (weatherCache w2) = lastRefreshTimes (weatherCache w)
  /\ cache (weatherCache w2) =
     match cache (weatherCache w) !! key with
     | Some entry =>
         if expiresAt entry <? now w1
         then delete key (cache (weatherCache w))
         else cache (weatherCache w)
     | None => cache (weatherCache w)
     end.
Proof.
  intros Hfail key w2.
  destruct (fetch_try_throw _ _ _ _ _ Hfail) as (Hc & _ & _).
  subst w2. rewrite (fetch_failed_eq _ _ _ _ _ Hfail), fetch_catch_eq.
  rewrite Hc. fold key. cbn zeta.
  destruct (cache (weatherCache w) !! key) as [entry|]; [|cbn; by rewrite Hc].
  rewrite Z.gtb_ltb. destruct (expiresAt entry <? now w1); cbn; by rewrite ?Hc.
Qed.

Lemma fetch_failed_result (loc : string) (u : TemperatureUnit)
    (w w1 : World) (e : JsError) :
  weatherService.fetchWeatherFromAPI_try loc u w = (Throw e, w1) ->
  let r := fst (weatherService.fetchWeatherFromAPI loc u w) in
  r = Throw (weatherService.apiError e)
  \/ exists entry,
       cache (weatherCache w) !! weatherService.cacheKey loc u = Some entry
       /\ r = Return (with_status (data entry) offline).
Proof.
  intros Hfail r. subst r.
  destruct (fetch_try_throw _ _ _ _ _ Hfail) as (Hc & _ & _).
  rewrite (fetch_failed_eq _ _ _ _ _ Hfail), fetch_catch_eq, Hc. cbn zeta.
  destruct (cache (weatherCache w) !! weatherService.cacheKey loc u) as [entry|];
    [|by left].
  destruct (now w1 >? expiresAt entry); [by left|]. right. by exists entry.
Qed.

(** C9. A failed fetch-and-store attempt has written nothing when it
    fails: the cache and the refresh times are those of the start.  After
    the fallback, the refresh times are still unchanged, so the gate reads
    the same last-refresh time as before, and the cache is the initial one,
    except that the fallback's [get] has deleted the entry of this key when
    it had expired. *)
Theorem C9_failed_attempt_frame (loc : string) (u : TemperatureUnit)
    (w : World) (e : JsError) :
  fst (weatherService.fetchWeatherFromAPI_try loc u w) = Throw e ->
  let w1 := snd (weatherService.fetchWeatherFromAPI_try loc u w) in
  let key := weatherService.cacheKey loc u in
  let w2 := snd (weatherService.fetchWeatherFromAPI loc u w) in
  weatherCache w1 = weatherCache w
  /\ lastRefreshTimes (weatherCache w2) = lastRefreshTimes (weatherCache w)
  /\ cache (weatherCache w2) =
     match cache (weatherCache w) !! key with
     | Some entry =>
         if expiresAt entry <? now w1
         then delete key (cache (weatherCache w))
         else cache (weatherCache w)
     | None => cache (weatherCache w)
     end
  /\ (forall l : string,
         fst (WeatherCache.getLastRefreshTime l w2) =
         fst (WeatherCache.getLastRefreshTime l w)).
Proof.
  intros Hfst w1 key w2. apply throw_inv in Hfst as Hfail. fold w1 in Hfail.
  destruct (fetch_try_throw _ _ _ _ _ Hfail) as (Hc & _ & _).
  destruct (fetch_failed_store _ _ _ _ _ Hfail) as [Hl Hcache].
  fold key w2 in Hl, Hcache. repeat split; try assumption.
  intros l. unfold WeatherCache.getLastRefreshTime, WeatherCache.this, bind.
  rewrite Hl. destruct (lastRefreshTimes (weatherCache w) !! l) as [t|]; [|reflexivity].
  destruct (t =? 0); reflexivity.
Qed.

(** ** Equations of the service functions *)

Lemma getCurrentWeather_hit (loc : string) (u : TemperatureUnit) (w : World)
    (entry : CacheEntry) :
  cache (weatherCache w) !! weatherService.cacheKey loc u = Some entry ->
  now w <= expiresAt entry ->
  weatherService.getCurrentWeather loc u w =
  (Return (with_status (data entry)
             (if clock w (S (ticks w)) - fetchedAt (data entry) >? 3600000
              then outdated else online)),
   tick (tick w)).
Proof.
  intros Hentry Hle. unfold weatherService.getCurrentWeather, bind.
  rewrite get_eq, Hentry.
  destruct (Z.gtb_spec (now w) (expiresAt entry)); [lia|]. reflexivity.
Qed.

(** C3. On a cache hit of [getCurrentWeather] (an entry under the key that
    has not expired when [get] reads the clock), the snapshot returned is
    the stored one with its status replaced: [outdated] when
    [now - fetchedAt > 1 h], for [now] the instant read to compute the age,
    and [online] otherwise; the other fields are those of the stored
    snapshot.  The store, with the stored status, is left as it was, and
    nothing is requested upstream. *)
Theorem C3_staleness_label (loc : string) (u : TemperatureUnit) (w : World)
    (entry : CacheEntry) :
  cache (weatherCache w) !! weatherService.cacheKey loc u = Some entry ->
  now w <= expiresAt entry ->
  let r := weatherService.getCurrentWeather loc u w in
  let age := clock w (S (ticks w)) - fetchedAt (data entry) in
  (exists d, fst r = Return d
     /\ (age > 3600000 -> status d = outdated)
     /\ (age <= 3600000 -> status d = online)
     /\ temperature d = temperature (data entry)
     /\ unit d = unit (data entry)
     /\ location d = location (data entry)
     /\ timestamp d = timestamp (data entry)
     /\ fetchedAt d = fetchedAt (data entry))
  /\ weatherCache (snd r) = weatherCache w
  /\ cache (weatherCache (snd r)) !! weatherService.cacheKey loc u = Some entry
  /\ requests (snd r) = requests w.
Proof.
  intros Hentry Hle r age. subst r.
  rewrite (getCurrentWeather_hit _ _ _ _ Hentry Hle). cbn [fst snd].
  split; [|by repeat split].
  eexists. split; [reflexivity|]. fold age. cbn.
  destruct (Z.gtb_spec age 3600000); repeat split; intros; try reflexivity; lia.
Qed.

Lemma checkRefreshEligibility_eq (loc : string) (w : World) :
  weatherService.checkRefreshEligibility loc w =
  match lastRefreshTimes (weatherCache w) !! loc with
  | None => (Return true, w)
  | Some t =>
      if t =? 0 then (Return true, w)
      else (Return (now w - t >=? 30000), tick w)
  end.
Proof.
  unfold weatherService.checkRefreshEligibility, WeatherCache.getLastRefreshTime,
    WeatherCache.this, bind.
  destruct (lastRefreshTimes (weatherCache w) !! loc) as [t|]; [|reflexivity].
  destruct (t =? 0); reflexivity.
Qed.

(** ** The refresh handler *)

(** A string has at most as many code units as bytes, and a non-empty one
    has at least one. *)
Lemma utf16_length_bounds (s : string) :
  (utf16_length s <= String.length s)%nat
  /\ ((1 <= String.length s)%nat -> (1 <= utf16_length s)%nat).
Proof.
  assert (H : forall (n : nat) (s : string),
             (String.length s <= n)%nat ->
             (utf16_length s <= String.length s)%nat
             /\ ((1 <= String.length s)%nat -> (1 <= utf16_length s)%nat)).
  { clear s. induction n as [|n IH]; intros s Hn.
    - destruct s; cbn in *; [lia|lia].
    - destruct s as [|a s1]; [cbn; lia|].
      assert (H1 : (utf16_length s1 <= String.length s1)%nat)
        by (apply IH; cbn in Hn; lia).
      cbn [utf16_length String.length].
      destruct (utf8_byte a); try lia.
      + destruct s1 as [|b s2]; [cbn; lia|].
        assert (H2 : (utf16_length s2 <= String.length s2)%nat)
          by (apply IH; cbn in Hn; lia).
        cbn [String.length] in *. destruct (is_continuation b); lia.
      + destruct s1 as [|b [|c s3]]; [cbn; lia|cbn in *; lia|].
        assert (H3 : (utf16_length s3 <= String.length s3)%nat)
          by (apply IH; cbn in Hn; lia).
        cbn [String.length] in *.
        destruct (is_continuation b && is_continuation c); lia.
      + destruct s1 as [|b [|c [|d s4]]]; [cbn; lia|cbn in *; lia|cbn in *; lia|].
        assert (H4 : (utf16_length s4 <= String.length s4)%nat)
          by (apply IH; cbn in Hn; lia).
        cbn [String.length] in *.
        destruct (is_continuation b && is_continuation c && is_continuation d); lia. }
  exact (H (String.length s) s (le_n _)).
Qed.

Lemma schema_parse_units (loc : string) (u : TemperatureUnit) (w : World) :
  (1 <= utf16_length loc <= 50)%nat ->
  controller.schema_parse (request_for loc u) w = (Return (loc, u), w).
Proof.
  intros [H1 H50]. unfold controller.schema_parse, controller.parse_location, bind.
  cbn [request_for controller.input_location controller.input_unit].
  destruct (Nat.leb_spec 1 (utf16_length loc)); [|lia].
  destruct (Nat.leb_spec (utf16_length loc) 50); [|lia].
  cbn. by destruct u.
Qed.

Lemma schema_parse_valid (loc : string) (u : TemperatureUnit) (w : World) :
  (1 <= String.length loc <= 50)%nat ->
  controller.schema_parse (request_for loc u) w = (Return (loc, u), w).
Proof.
  intros [H1 H50]. apply schema_parse_units.
  destruct (utf16_length_bounds loc) as [Hle Hge]. split; [by apply Hge | lia].
Qed.

(** The handler once validation has passed: the gate, then either the 429
    response or the service refresh in the world the gate has left. *)
Lemma controller_refreshWeather_eq (loc : string) (u : TemperatureUnit) (w : World) :
  (1 <= String.length loc <= 50)%nat ->
  controller.refreshWeather (request_for loc u) w =
  match weatherService.checkRefreshEligibility loc w with
  | (Return false, w1) => (Return (rate_limited (now w1)), tick w1)
  | (Return true, w1) =>
      match weatherService.refreshWeather loc u w1 with
      | (Return d, w2) => (Return (Sent 200 (SuccessResponse d (now w2))), tick w2)
      | (Throw e, w2) => controller.on_error e w2
      end
  | (Throw e, w1) => controller.on_error e w1
  end.
Proof.
  intros Hloc. unfold controller.refreshWeather, try_catch, bind.
  rewrite (schema_parse_valid _ _ _ Hloc). cbn [fst snd].
  destruct (weatherService.checkRefreshEligibility loc w) as [[[|]|e] w1];
    cbn; try reflexivity.
  destruct (weatherService.refreshWeather loc u w1) as [[d|e] w2]; reflexivity.
Qed.

(** C4. With recorded refresh instants that are clock readings (non-zero),
    the gate allows a refresh of [loc] exactly when no instant is recorded
    for [loc] or [now - recorded >= 30 s], the boundary included, and it
    changes nothing in the store.  It reads the location only: whatever
    the unit of the request, when the gate denies, the handler answers 429
    RATE_LIMIT_ERROR, sends nothing upstream and leaves the store as it
    was; so an instant recorded by a fetch of (loc, celsius) denies a
    refresh of (loc, fahrenheit) less than 30 s later.  When the gate
    allows, the handler runs the service refresh. *)
Theorem C4_refresh_gate (loc : string) (w : World) :
  (forall t, lastRefreshTimes (weatherCache w) !! loc = Some t -> t <> 0) ->
  (1 <= String.length loc <= 50)%nat ->
  let gate := weatherService.checkRefreshEligibility loc w in
  exists canRefresh : bool,
    fst gate = Return canRefresh
    /\ (canRefresh = true <->
        lastRefreshTimes (weatherCache w) !! loc = None
        \/ exists t, lastRefreshTimes (weatherCache w) !! loc = Some t
                     /\ now w - t >= 30000)
    /\ weatherCache (snd gate) = weatherCache w
    /\ requests (snd gate) = requests w
    /\ (canRefresh = false -> forall u : TemperatureUnit,
          let r := controller.refreshWeather (request_for loc u) w in
          fst r = Return (rate_limited (now (snd gate)))
          /\ requests (snd r) = requests w
          /\ weatherCache (snd r) = weatherCache w)
    /\ (canRefresh = true -> forall u : TemperatureUnit,
          controller.refreshWeather (request_for loc u) w =
          match weatherService.refreshWeather loc u (snd gate) with
          | (Return d, w2) => (Return (Sent 200 (SuccessResponse d (now w2))), tick w2)
          | (Throw e, w2) => controller.on_error e w2
          end)
    /\ (forall (w0 : World) (d : WeatherData),
          lastRefreshTimes (weatherCache w) =
            lastRefreshTimes (weatherCache (stored loc celsius d w0)) ->
          now w - clock w0 (3 + ticks w0)%nat < 30000 ->
          fst (controller.refreshWeather (request_for loc fahrenheit) w)
          = Return (rate_limited (now (snd gate)))).
Proof.
  intros Hnz Hloc gate.
  assert (Hctl := fun u => controller_refreshWeather_eq loc u w Hloc).
  subst gate. revert Hctl. rewrite checkRefreshEligibility_eq.
  destruct (lastRefreshTimes (weatherCache w) !! loc) as [t|] eqn:Ht.
  - destruct (Z.eqb_spec t 0) as [->|_]; [by destruct (Hnz 0)|].
    intros Hctl. exists (now w - t >=? 30000). cbn [fst snd].
    split; [reflexivity|]. split.
    { rewrite Z.geb_le. split.
      - intros H. right. exists t. split; [reflexivity | lia].
      - intros [H|(t' & H & Hge)]; [discriminate|]. injection H as <-. lia. }
    split; [reflexivity|]. split; [reflexivity|]. split; [|split].
    + intros Hdeny u. rewrite Hctl, Hdeny. by cbn.
    + intros Hallow u. rewrite Hctl, Hallow. reflexivity.
    + intros w0 d Hl Hlt. rewrite Hl in Ht. cbn in Ht.
      rewrite lookup_insert_eq in Ht. injection Ht as <-.
      rewrite Hctl. change (3 + ticks w0)%nat with (S (S (S (ticks w0)))) in Hlt.
      destruct (Z.geb_spec (now w - clock w0 (S (S (S (ticks w0))))) 30000); [lia|].
      reflexivity.
  - intros Hctl. exists true. cbn [fst snd].
    split; [reflexivity|]. split; [by split; [left|]|].
    split; [reflexivity|]. split; [reflexivity|]. split; [discriminate|]. split.
    + intros _ u. rewrite Hctl. reflexivity.
    + intros w0 d Hl _. rewrite Hl in Ht. cbn in Ht.
      by rewrite lookup_insert_eq in Ht.
Qed.

(** ** The plausibility guard *)

Lemma SFcompare_antisym (x y : number) :
  SFcompare y x = option_map CompOpp (SFcompare x y).
Proof.
  destruct x as [sx|sx| |sx mx ex], y as [sy|sy| |sy my ey]; cbn;
    try reflexivity;
    try (destruct sx; reflexivity);
    try (destruct sy; reflexivity);
    try (destruct sx, sy; reflexivity).
  destruct sx, sy; cbn; try reflexivity;
    rewrite (Z.compare_antisym ex ey);
    destruct (ex ?= ey) eqn:He; cbn; try reflexivity;
    change (PosDef.Pos.compare_cont Eq my mx) with (Pos.compare my mx);
    change (PosDef.Pos.compare_cont Eq mx my) with (Pos.compare mx my);
    rewrite (Pos.compare_antisym mx my);
    destruct (mx ?= my)%positive; reflexivity.
Qed.

Lemma SFcompare_None (x y : number) :
  SFcompare x y = None -> x = S754_nan \/ y = S754_nan.
Proof.
  destruct x as [sx|sx| |sx mx ex], y as [sy|sy| |sy my ey]; cbn; auto;
    try discriminate;
    try (destruct sx; discriminate);
    try (destruct sy; discriminate).
Qed.

(** The guard passes exactly on the readings inside the closed interval;
    a NaN reading, which compares false with everything, passes too. *)
Lemma implausible_spec (t : number) :
  t <> S754_nan ->
  implausible t = negb (leb (ofZ (-90)) t && leb t (ofZ 60)).
Proof.
  intros Hnan. unfold implausible, ltb, gtb, leb, SFltb, SFleb.
  rewrite (SFcompare_antisym t (ofZ (-90))), (SFcompare_antisym t (ofZ 60)).
  destruct (SFcompare t (ofZ (-90))) as [[| |]|] eqn:H1;
    destruct (SFcompare t (ofZ 60)) as [[| |]|] eqn:H2; cbn; try reflexivity.
  all: try (apply SFcompare_None in H1 as [H1|H1]; [by destruct Hnan | discriminate]).
  all: try (apply SFcompare_None in H2 as [H2|H2]; [by destruct Hnan | discriminate]).
Qed.

Lemma inside_passes (t : number) :
  leb (ofZ (-90)) t = true -> leb t (ofZ 60) = true -> implausible t = false.
Proof.
  intros H1 H2. rewrite implausible_spec; [by rewrite H1, H2|].
  intros ->. discriminate.
Qed.

(** C5. The guard is on the Celsius reading of the response, whatever the
    requested unit.  A reading below -90 or above 60 makes the attempt
    throw 'Temperature value outside plausible range' with nothing
    written: the whole fetch then stores no entry, records no refresh,
    and returns either the error with code WEATHER_API_ERROR or a snapshot
    that was already in the cache, marked offline, never a value derived
    from the rejected reading.  (The source evaluates the conversion
    expression on the line before the guard; it is pure and the throw
    discards its value.)  A reading inside [-90, 60], the endpoints
    included, passes the guard, and the attempt stores the snapshot built
    from it. *)
Theorem C5_plausibility_guard (loc : string) (u : TemperatureUnit) (w : World)
    (d : Upstream.Data) (c : Upstream.Current) :
  truthy (config_weather_apiKey w) = true ->
  network w (length (requests w)) loc = Upstream.Resolved (Some d) ->
  Upstream.current d = Some c ->
  let t := Upstream.temp_c c in
  let r := weatherService.fetchWeatherFromAPI loc u w in
  (ltb t (ofZ (-90)) = true \/ gtb t (ofZ 60) = true ->
     weatherService.fetchWeatherFromAPI_try loc u w =
       (Throw (Error "Temperature value outside plausible range"), requested loc w)
     /\ weatherCache (requested loc w) = weatherCache w
     /\ (forall k entry, cache (weatherCache (snd r)) !! k = Some entry ->
                         cache (weatherCache w) !! k = Some entry)
     /\ lastRefreshTimes (weatherCache (snd r)) = lastRefreshTimes (weatherCache w)
     /\ (fst r = Throw (weatherService.apiError
                          (Error "Temperature value outside plausible range"))
         \/ exists entry,
              cache (weatherCache w) !! weatherService.cacheKey loc u = Some entry
              /\ fst r = Return (with_status (data entry) offline)))
  /\ (leb (ofZ (-90)) t = true -> leb t (ofZ 60) = true ->
      implausible t = false
      /\ forall l, Upstream.location d = Some l ->
           r = (Return (fresh_snapshot u t (Upstream.name l) w),
                stored loc u (fresh_snapshot u t (Upstream.name l) w) w))
  /\ implausible (ofZ (-90)) = false
  /\ implausible (ofZ 60) = false.
Proof.
  intros Hkey Hnet Hcur t r.
  assert (Htry := fetch_try_eq loc u w). rewrite Hkey, Hnet, Hcur in Htry.
  cbn [negb] in Htry. fold t in Htry.
  split; [|split; [|split; reflexivity]].
  - intros Hout.
    assert (Himp : implausible t = true).
    { unfold implausible. destruct Hout as [-> | ->]; [reflexivity|].
      apply orb_true_r. }
    rewrite Himp in Htry. split; [exact Htry|]. split; [reflexivity|].
    destruct (fetch_failed_store _ _ _ _ _ Htry) as [Hl Hcache].
    split; [|split; [exact Hl|]].
    + intros k entry. subst r. rewrite Hcache.
      destruct (cache (weatherCache w) !! weatherService.cacheKey loc u) as [e'|];
        [|done].
      destruct (expiresAt e' <? now (requested loc w)); [|done].
      intros [_ H]%lookup_delete_Some. exact H.
    + exact (fetch_failed_result _ _ _ _ _ Htry).
  - intros H1 H2. pose proof (inside_passes t H1 H2) as Himp.
    split; [exact Himp|]. intros l Hl. rewrite Himp, Hl in Htry.
    subst r. exact (fetch_succeeded_eq _ _ _ _ _ Htry).
Qed.

(** ** Conversion and rounding *)

Lemma pow2_pos (e : Z) : 0 < pow2 e.
Proof. unfold pow2. apply Z.pow_pos_nonneg; lia. Qed.

(** [toFixed(1)] on a finite [x = (-1)^s * m * 2^e] below 10^21: the
    digits [n] are the integer nearest to [10 * |x|], the larger one on a
    tie: [n - 1/2 <= 10 * |x| < n + 1/2], stated with the denominators
    cleared ([|x| = m * pow2 e / pow2 (- e)]). *)
Lemma toFixed1_nearest (s s' : bool) (m : positive) (e : Z) (n : N) :
  toFixed1 (S754_finite s m e) = FixedDecimal s' n ->
  s' = s
  /\ 2 * pow2 (- e) * Z.of_N n <= 20 * Z.pos m * pow2 e + pow2 (- e)
     < 2 * pow2 (- e) * (Z.of_N n + 1).
Proof.
  unfold toFixed1. destruct (10 ^ 21 * pow2 (- e) <=? Z.pos m * pow2 e); [discriminate|].
  intros H. injection H as -> <-. split; [reflexivity|].
  pose proof (pow2_pos e) as Hp. pose proof (pow2_pos (- e)) as Hq.
  set (a := 20 * Z.pos m * pow2 e + pow2 (- e)).
  set (b := 2 * pow2 (- e)).
  assert (Ha : 0 <= a) by (unfold a; nia).
  assert (Hb : 0 < b) by (unfold b; lia).
  rewrite Z2N.id by (apply Z.div_pos; lia).
  split.
  - apply Z.mul_div_le. exact Hb.
  - rewrite Z.add_1_r. apply Z.mul_succ_div_gt. exact Hb.
Qed.

(** ** Magnitudes in binary64 arithmetic *)

Lemma digits2_pos_bounds (p : positive) :
  2 ^ (Z.pos (digits2_pos p) - 1) <= Z.pos p < 2 ^ Z.pos (digits2_pos p).
Proof.
  induction p as [p IH|p IH|]; cbn [digits2_pos].
  - rewrite Pos2Z.inj_succ, Z.pow_succ_r by lia.
    replace (Z.succ (Z.pos (digits2_pos p)) - 1) with (Z.succ (Z.pos (digits2_pos p) - 1)) by lia.
    rewrite Z.pow_succ_r by lia. lia.
  - rewrite Pos2Z.inj_succ, Z.pow_succ_r by lia.
    replace (Z.succ (Z.pos (digits2_pos p)) - 1) with (Z.succ (Z.pos (digits2_pos p) - 1)) by lia.
    rewrite Z.pow_succ_r by lia. lia.
  - cbn. lia.
Qed.

Lemma shr_1_m (r : shr_record) :
  0 <= shr_m r -> shr_m (shr_1 r) = shr_m r / 2.
Proof.
  destruct r as [m b1 b2]. cbn [shr_m]. intros Hm.
  destruct m as [|[p|p|]|p]; cbn [shr_1 shr_m]; try lia; try reflexivity.
  - apply Z.div_unique with 1; lia.
  - apply Z.div_unique with 0; lia.
Qed.

Lemma iter_shr_1_m (p : positive) (r : shr_record) :
  0 <= shr_m r -> shr_m (SpecFloat.iter_pos shr_1 p r) = shr_m r / 2 ^ Z.pos p.
Proof.
  revert r. induction p as [p IH|p IH|]; intros r Hm; cbn [SpecFloat.iter_pos].
  - assert (Hp : 0 < 2 ^ Z.pos p) by (apply Z.pow_pos_nonneg; lia).
    assert (H1 : 0 <= shr_m (shr_1 r)) by (rewrite shr_1_m by lia; apply Z.div_pos; lia).
    assert (H2 : 0 <= shr_m (SpecFloat.iter_pos shr_1 p (shr_1 r)))
      by (rewrite IH by lia; apply Z.div_pos; lia).
    rewrite IH, IH, shr_1_m by lia.
    rewrite !Z.div_div by lia.
    f_equal. rewrite Pos2Z.inj_xI.
    replace (2 * Z.pos p + 1) with (1 + Z.pos p + Z.pos p) by lia.
    rewrite (Z.pow_add_r 2 (1 + Z.pos p) (Z.pos p)) by lia.
    rewrite (Z.pow_add_r 2 1 (Z.pos p)) by lia. change (2 ^ 1) with 2. lia.
  - assert (Hp : 0 < 2 ^ Z.pos p) by (apply Z.pow_pos_nonneg; lia).
    assert (H2 : 0 <= shr_m (SpecFloat.iter_pos shr_1 p r))
      by (rewrite IH by lia; apply Z.div_pos; lia).
    rewrite IH, IH by lia.
    rewrite !Z.div_div by lia.
    f_equal. rewrite <- Z.pow_add_r by lia. f_equal; lia.
  - rewrite shr_1_m by lia. reflexivity.
Qed.

Lemma shr_m_bound (r : shr_record) (e n K : Z) :
  0 <= shr_m r < 2 ^ (K - e) -> e + Z.max n 0 <= K ->
  0 <= shr_m (fst (shr r e n)) < 2 ^ (K - snd (shr r e n)).
Proof.
  intros Hm HK. unfold shr. destruct n as [|p|p]; cbn [fst snd]; try lia.
  rewrite iter_shr_1_m by lia.
  assert (Hp : 0 < 2 ^ Z.pos p) by (apply Z.pow_pos_nonneg; lia).
  split; [apply Z.div_pos; lia|].
  apply Z.div_lt_upper_bound; [lia|].
  rewrite <- Z.pow_add_r by lia.
  replace (Z.pos p + (K - (e + Z.pos p))) with (K - e) by lia. lia.
Qed.

Lemma Zdigits2_bound (m e K : Z) :
  0 <= m < 2 ^ (K - e) -> Zdigits2 m + e <= K.
Proof.
  intros Hm. destruct m as [|p|p]; cbn [Zdigits2]; try lia.
  - assert (0 <= K - e); [|lia].
    destruct (Z.le_gt_cases 0 (K - e)) as [|Hn]; [lia|].
    rewrite Z.pow_neg_r in Hm by lia. lia.
  - pose proof (digits2_pos_bounds p) as [Hlo _].
    assert (Z.pos (digits2_pos p) - 1 < K - e); [|lia].
    apply (Z.pow_lt_mono_r_iff 2); try lia.
    destruct (Z.le_gt_cases 0 (K - e)) as [|Hn]; [lia|].
    rewrite Z.pow_neg_r in Hm by lia. lia.
Qed.

Lemma shr_fexp_bound (m e K : Z) (l : SpecFloat.location) :
  0 <= m < 2 ^ (K - e) -> emin prec emax <= K ->
  0 <= shr_m (fst (shr_fexp prec emax m e l))
     < 2 ^ (K - snd (shr_fexp prec emax m e l)).
Proof.
  intros Hm HK. unfold shr_fexp.
  apply shr_m_bound.
  - destruct l as [|[]]; cbn; lia.
  - pose proof (Zdigits2_bound m e K Hm).
    assert (e <= K).
    { destruct (Z.le_gt_cases 0 (K - e)) as [|Hn]; [lia|].
      rewrite Z.pow_neg_r in Hm by lia. lia. }
    unfold fexp. unfold emin, prec, emax in *. lia.
Qed.

Lemma round_nearest_even_bound (m : Z) (l : SpecFloat.location) :
  m <= round_nearest_even m l <= m + 1.
Proof.
  unfold round_nearest_even. destruct l as [|[]]; try lia; destruct (Z.even m); lia.
Qed.

Lemma binary_round_aux_below (s : bool) (m e K : Z) (l : SpecFloat.location) :
  0 <= m < 2 ^ (K - e) -> emin prec emax <= K -> K + 1 <= emax - prec ->
  below (K + 1) (binary_round_aux prec emax s m e l).
Proof.
  intros Hm HK HK'. unfold binary_round_aux.
  pose proof (shr_fexp_bound m e K l Hm HK) as H1.
  destruct (shr_fexp prec emax m e l) as [r1 e1]. cbn [fst snd] in H1.
  pose proof (round_nearest_even_bound (shr_m r1) (loc_of_shr_record r1)) as Hr.
  set (m1 := round_nearest_even _ _) in *.
  assert (Hm1 : 0 <= m1 < 2 ^ (K + 1 - e1)).
  { assert (0 <= K - e1).
    { destruct (Z.le_gt_cases 0 (K - e1)) as [|Hn]; [lia|].
      rewrite Z.pow_neg_r in H1 by lia. lia. }
    replace (K + 1 - e1) with (Z.succ (K - e1)) by lia.
    rewrite Z.pow_succ_r by lia. lia. }
  pose proof (shr_fexp_bound m1 e1 (K + 1) loc_Exact Hm1 ltac:(lia)) as H2.
  destruct (shr_fexp prec emax m1 e1 loc_Exact) as [r2 e2]. cbn [fst snd] in H2.
  assert (e2 <= K + 1).
  { destruct (Z.le_gt_cases 0 (K + 1 - e2)) as [|Hn]; [lia|].
    rewrite Z.pow_neg_r in H2 by lia. lia. }
  destruct (shr_m r2) as [|p|p] eqn:Hp.
  - exact I.
  - destruct (e2 <=? emax - prec) eqn:He; [cbn; lia|].
    apply Z.leb_gt in He. lia.
  - lia.
Qed.

Lemma pow2_exponent (k : Z) (m : Z) : 0 <= m < 2 ^ k -> 0 <= k.
Proof.
  intros Hm. destruct (Z.le_gt_cases 0 k) as [|Hn]; [lia|].
  rewrite Z.pow_neg_r in Hm by lia. lia.
Qed.

Lemma below_mono (k k' : Z) (x : number) :
  k <= k' -> below k x -> below k' x.
Proof.
  intros Hk. destruct x as [s|s| |s m e]; cbn [below]; try tauto.
  intros Hm. pose proof (pow2_exponent (k - e) (Z.pos m) ltac:(lia)).
  eapply Z.lt_le_trans; [exact Hm|]. apply Z.pow_le_mono_r; lia.
Qed.

Lemma SFmul_below (k1 k2 : Z) (x y : number) :
  below k1 x -> below k2 y ->
  emin prec emax <= k1 + k2 -> k1 + k2 + 1 <= emax - prec ->
  below (k1 + k2 + 1) (SFmul prec emax x y).
Proof.
  intros Hx Hy Hlo Hhi.
  destruct x as [sx|sx| |sx mx ex], y as [sy|sy| |sy my ey];
    cbn [below SFmul] in *; try tauto.
  apply binary_round_aux_below; try assumption.
  pose proof (pow2_exponent (k1 - ex) (Z.pos mx) ltac:(lia)).
  pose proof (pow2_exponent (k2 - ey) (Z.pos my) ltac:(lia)).
  replace (k1 + k2 - (ex + ey)) with ((k1 - ex) + (k2 - ey)) by lia.
  rewrite Z.pow_add_r by lia. rewrite Pos2Z.inj_mul. nia.
Qed.

Lemma SFdiv_below (k : Z) (x : number) (sy : bool) (my : positive) (ey : Z) :
  below k x ->
  emin prec emax <= k - ey -> k - ey + 1 <= emax - prec ->
  below (k - ey + 1) (SFdiv prec emax x (S754_finite sy my ey)).
Proof.
  intros Hx Hlo Hhi.
  destruct x as [sx|sx| |sx mx ex]; cbn [below SFdiv] in *; try tauto.
  unfold SFdiv_core_binary.
  set (e' := Z.min _ _).
  assert (He' : e' <= ex - ey) by (unfold e'; lia).
  set (m' := match ex - ey - e' with Z0 => Z.pos mx | Zpos _ => _ | Zneg _ => _ end).
  assert (Hm' : m' = Z.pos mx * 2 ^ (ex - ey - e')).
  { unfold m'. destruct (ex - ey - e') as [|p|p] eqn:Hs; try lia.
    rewrite Z.shiftl_mul_pow2 by lia. reflexivity. }
  clearbody m' e'.
  pose proof (pow2_exponent (k - ex) (Z.pos mx) ltac:(lia)).
  assert (Hp : 0 < 2 ^ (ex - ey - e')) by (apply Z.pow_pos_nonneg; lia).
  assert (Hb : 0 <= m' < 2 ^ (k - ey - e')).
  { replace (k - ey - e') with ((k - ex) + (ex - ey - e')) by lia.
    rewrite Z.pow_add_r by lia. nia. }
  pose proof (Z_div_mod m' (Z.pos my) ltac:(lia)) as Hdm.
  destruct (Z.div_eucl m' (Z.pos my)) as [q r].
  apply binary_round_aux_below; try assumption.
  destruct Hdm as [Hq Hr]. nia.
Qed.

Lemma iter_xO (m d : positive) :
  Z.pos (Pos.iter xO m d) = Z.pos m * 2 ^ Z.pos d.
Proof.
  induction d as [|d IH] using Pos.peano_ind.
  - cbn. lia.
  - rewrite Pos.iter_succ, Pos2Z.inj_xO, IH, Pos2Z.inj_succ, Z.pow_succ_r by lia. lia.
Qed.

Lemma shl_align_spec (m : positive) (e t : Z) :
  snd (shl_align m e t) = Z.min e t
  /\ Z.pos (fst (shl_align m e t)) = Z.pos m * 2 ^ (e - Z.min e t).
Proof.
  unfold shl_align. destruct (t - e) as [|d|d] eqn:Hd; cbn [fst snd].
  - replace (Z.min e t) with e by lia. rewrite Z.sub_diag. split; lia.
  - replace (Z.min e t) with e by lia. rewrite Z.sub_diag. split; lia.
  - replace (Z.min e t) with t by lia. split; [reflexivity|].
    rewrite iter_xO. f_equal. f_equal. lia.
Qed.

Lemma binary_round_below (s : bool) (m : positive) (e K : Z) :
  Z.pos m < 2 ^ (K - e) -> emin prec emax <= K -> K + 1 <= emax - prec ->
  below (K + 1) (binary_round prec emax s m e).
Proof.
  intros Hm Hlo Hhi. unfold binary_round.
  pose proof (shl_align_spec m e (fexp prec emax (Z.pos (digits2_pos m) + e))) as [H1 H2].
  destruct (shl_align m e _) as [mz ez]. cbn [fst snd] in *.
  apply binary_round_aux_below; try assumption.
  pose proof (pow2_exponent (K - e) (Z.pos m) ltac:(lia)).
  rewrite H2, H1. split; [lia|].
  set (t := Z.min e _) in *. assert (t <= e) by (unfold t; lia). clearbody t.
  assert (Hp : 0 < 2 ^ (e - t)) by (apply Z.pow_pos_nonneg; lia).
  replace (K - t) with ((K - e) + (e - t)) by lia.
  rewrite Z.pow_add_r by lia. nia.
Qed.

Lemma SFadd_below (k1 k2 : Z) (x y : number) :
  below k1 x -> below k2 y ->
  emin prec emax <= Z.max k1 k2 + 1 -> Z.max k1 k2 + 2 <= emax - prec ->
  below (Z.max k1 k2 + 2) (SFadd prec emax x y).
Proof.
  intros Hx Hy Hlo Hhi.
  destruct x as [sx|sx| |sx mx ex], y as [sy|sy| |sy my ey];
    cbn [below SFadd] in *; try tauto.
  - destruct sx, sy; exact I.
  - eapply Z.lt_le_trans; [exact Hy|].
    pose proof (pow2_exponent (k2 - ey) (Z.pos my) ltac:(lia)).
    apply Z.pow_le_mono_r; lia.
  - eapply Z.lt_le_trans; [exact Hx|].
    pose proof (pow2_exponent (k1 - ex) (Z.pos mx) ltac:(lia)).
    apply Z.pow_le_mono_r; lia.
  - pose proof (shl_align_spec mx ex (Z.min ex ey)) as [_ Ha].
    pose proof (shl_align_spec my ey (Z.min ex ey)) as [_ Hb].
    replace (Z.min ex (Z.min ex ey)) with (Z.min ex ey) in Ha by lia.
    replace (Z.min ey (Z.min ex ey)) with (Z.min ex ey) in Hb by lia.
    set (ez := Z.min ex ey) in *.
    assert (Hez : ez <= ex /\ ez <= ey) by (unfold ez; lia). clearbody ez.
    set (a := Z.pos (fst (shl_align mx ex ez))) in *.
    set (b := Z.pos (fst (shl_align my ey ez))) in *.
    pose proof (pow2_exponent (k1 - ex) (Z.pos mx) ltac:(lia)).
    pose proof (pow2_exponent (k2 - ey) (Z.pos my) ltac:(lia)).
    set (K := Z.max k1 k2 + 1) in *.
    assert (Hab : 0 < a /\ 0 < b /\ a + b < 2 ^ (K - ez)).
    { split; [unfold a; lia|]. split; [unfold b; lia|].
      assert (H1 : a < 2 ^ (K - 1 - ez)).
      { rewrite Ha. 
        assert (Hp : 0 < 2 ^ (ex - ez)) by (apply Z.pow_pos_nonneg; lia).
        apply Z.lt_le_trans with (2 ^ (k1 - ex) * 2 ^ (ex - ez)); [nia|].
        rewrite <- Z.pow_add_r by lia. apply Z.pow_le_mono_r; lia. }
      assert (H2 : b < 2 ^ (K - 1 - ez)).
      { rewrite Hb. 
        assert (Hp : 0 < 2 ^ (ey - ez)) by (apply Z.pow_pos_nonneg; lia).
        apply Z.lt_le_trans with (2 ^ (k2 - ey) * 2 ^ (ey - ez)); [nia|].
        rewrite <- Z.pow_add_r by lia. apply Z.pow_le_mono_r; lia. }
      replace (K - ez) with (Z.succ (K - 1 - ez)) by lia.
      rewrite Z.pow_succ_r by lia. lia. }
    clearbody a b.
    replace (Z.max k1 k2 + 2) with (K + 1) by lia.
    unfold binary_normalize.
    destruct (cond_Zopp sx a + cond_Zopp sy b) as [|p|p] eqn:Hz.
    + exact I.
    + apply binary_round_below; try lia.
      destruct sx, sy; cbn [cond_Zopp] in Hz; lia.
    + apply binary_round_below; try lia.
      destruct sx, sy; cbn [cond_Zopp] in Hz; lia.
Qed.

(** A reading that is a binary64 number and passes the guard is below
    2^7 in magnitude. *)
Lemma plausible_below (t : number) :
  valid_binary prec emax t = true -> t <> S754_nan ->
  implausible t = false -> below 7 t.
Proof.
  intros Hv Hnan Himp.
  destruct t as [s|s| |s m e]; cbn [below]; [exact I| | |].
  - by destruct s.
  - by destruct Hnan.
  - cbn [valid_binary] in Hv. apply andb_true_iff in Hv as [Hc He].
    apply Z.leb_le in He.
    unfold canonical_mantissa in Hc. apply Z.eqb_eq in Hc.
    pose proof (digits2_pos_bounds m) as [_ Hm].
    assert (Hd : Z.pos (digits2_pos m) <= 53)
      by (unfold fexp, prec, emax, emin in Hc; lia).
    assert (Hm53 : Z.pos m < 2 ^ 53).
    { eapply Z.lt_le_trans; [exact Hm|]. apply Z.pow_le_mono_r; lia. }
    assert (Hexp : e <= -46).
    { unfold implausible in Himp. apply orb_false_iff in Himp as [Hlo Hhi].
      unfold ltb, gtb, SFltb in Hlo, Hhi.
      change (ofZ (-90)) with (S754_finite true 6333186975989760 (-46)) in Hlo.
      change (ofZ 60) with (S754_finite false 8444249301319680 (-47)) in Hhi.
      destruct s; cbn [SFcompare] in Hlo, Hhi.
      - destruct (e ?= -46) eqn:Hcmp; try discriminate.
        + apply Z.compare_eq in Hcmp. lia.
        + change (e < -46) in Hcmp. lia.
      - destruct (-47 ?= e) eqn:Hcmp; try discriminate.
        + apply Z.compare_eq in Hcmp. lia.
        + pose proof (proj1 (Z.compare_gt_iff _ _) Hcmp). lia. }
    eapply Z.lt_le_trans; [exact Hm53|]. apply Z.pow_le_mono_r; lia.
Qed.

(** The Fahrenheit value of such a reading is zero or finite and below
    2^65 in magnitude. *)
Lemma celsiusToFahrenheit_below (t : number) :
  below 7 t -> below 65 (weatherService.celsiusToFahrenheit t).
Proof.
  intros Ht. unfold weatherService.celsiusToFahrenheit, add, div, mul.
  assert (H9 : below 4 (ofZ 9)) by (by vm_compute).
  assert (H32 : below 6 (ofZ 32)) by (by vm_compute).
  pose proof (SFmul_below 7 4 t (ofZ 9) Ht H9 ltac:(by vm_compute) ltac:(by vm_compute)) as Hmul.
  change (7 + 4 + 1) with 12 in Hmul.
  pose proof (SFdiv_below 12 _ false 5629499534213120 (-50) Hmul
                ltac:(by vm_compute) ltac:(by vm_compute)) as Hdiv.
  change (12 - -50 + 1) with 63 in Hdiv.
  change (S754_finite false 5629499534213120 (-50)) with (ofZ 5) in Hdiv.
  pose proof (SFadd_below 63 6 _ _ Hdiv H32 ltac:(by vm_compute) ltac:(by vm_compute)) as Hadd.
  exact Hadd.
Qed.

(** [toFixed(1)] prints a number below 2^65 in magnitude in decimal
    notation, with the nearest number of tenths. *)
Lemma toFixed1_below (x : number) :
  below 65 x ->
  exists (s : bool) (n : N), toFixed1 x = FixedDecimal s n /\ nearest_tenths x s n.
Proof.
  destruct x as [s|s| |s m e]; cbn [below]; try tauto.
  - intros _. exists false, 0%N. by split.
  - intros Hm.
    assert (Hdec : (10 ^ 21 * pow2 (- e) <=? Z.pos m * pow2 e) = false).
    { apply Z.leb_gt.
      pose proof (pow2_exponent (65 - e) (Z.pos m) ltac:(lia)) as He.
      unfold pow2. destruct (Z.le_gt_cases 0 e) as [Hpos|Hneg].
      - replace (Z.max (- e) 0) with 0 by lia. replace (Z.max e 0) with e by lia.
        assert (Hp : 0 < 2 ^ e) by (apply Z.pow_pos_nonneg; lia).
        apply Z.lt_le_trans with (2 ^ (65 - e) * 2 ^ e); [nia|].
        rewrite <- Z.pow_add_r by lia. replace (65 - e + e) with 65 by lia.
        by vm_compute.
      - replace (Z.max (- e) 0) with (- e) by lia. replace (Z.max e 0) with 0 by lia.
        assert (Hp : 0 < 2 ^ (- e)) by (apply Z.pow_pos_nonneg; lia).
        replace (65 - e) with (65 + - e) in Hm by lia.
        rewrite Z.pow_add_r in Hm by lia.
        assert (H65 : 2 ^ 65 < 10 ^ 21) by (by vm_compute).
        change (2 ^ 0) with 1. nia. }
    assert (Hfix : toFixed1 (S754_finite s m e) =
                   FixedDecimal s
                     (Z.to_N ((20 * Z.pos m * pow2 e + pow2 (- e)) / (2 * pow2 (- e)))))
      by (unfold toFixed1; rewrite Hdec; reflexivity).
    eexists s, _. split; [exact Hfix|].
    cbn [nearest_tenths]. split; [reflexivity|].
    exact (proj2 (toFixed1_nearest s s m e _ Hfix)).
Qed.

Lemma fetch_success_eq (loc : string) (u : TemperatureUnit) (w : World)
    (d : Upstream.Data) (c : Upstream.Current) (l : Upstream.Location) :
  truthy (config_weather_apiKey w) = true ->
  network w (length (requests w)) loc = Upstream.Resolved (Some d) ->
  Upstream.current d = Some c ->
  Upstream.location d = Some l ->
  implausible (Upstream.temp_c c) = false ->
  weatherService.fetchWeatherFromAPI loc u w =
  (Return (fresh_snapshot u (Upstream.temp_c c) (Upstream.name l) w),
   stored loc u (fresh_snapshot u (Upstream.temp_c c) (Upstream.name l) w) w).
Proof.
  intros Hkey Hnet Hcur Hloc Himp. apply fetch_succeeded_eq.
  rewrite fetch_try_eq, Hkey, Hnet, Hcur, Himp, Hloc. reflexivity.
Qed.

(** C6. A successful fetch in fahrenheit returns and stores the same
    temperature: the binary64 computation [(C * 9) / 5 + 32] on the
    upstream Celsius reading [C], rounded to one decimal place.  For
    every reading that is a binary64 number and passes the guard,
    [toFixed(1)] prints the computed value in decimal notation: its sign
    and the number of tenths [n] nearest to its magnitude (half a tenth
    rounds away from zero), and the temperature returned and stored is
    the binary64 value of that decimal, [n / 10] with that sign, a zero
    when [n] is 0.  The result is a function of [C] alone, so two fetches
    that read the same [C], in whatever worlds, give the same
    temperature.  20.0 gives exactly 68.0 and 0.0 exactly 32.0; 20.3
    gives 68.5 (from 68.54), and -17.8 gives -0 (from -0.04). *)
Theorem C6_fahrenheit_conversion (loc : string) (w : World)
    (d : Upstream.Data) (c : Upstream.Current) (l : Upstream.Location) :
  truthy (config_weather_apiKey w) = true ->
  network w (length (requests w)) loc = Upstream.Resolved (Some d) ->
  Upstream.current d = Some c ->
  Upstream.location d = Some l ->
  implausible (Upstream.temp_c c) = false ->
  let C := Upstream.temp_c c in
  let F0 := add (div (mul C (ofZ 9)) (ofZ 5)) (ofZ 32) in
  let F := parseFloat (toFixed1 F0) in
  let r := weatherService.fetchWeatherFromAPI loc fahrenheit w in
  (exists wd expires,
      fst r = Return wd
      /\ temperature wd = F
      /\ unit wd = "°F"
      /\ cache (weatherCache (snd r)) !! weatherService.cacheKey loc fahrenheit
         = Some {| data := wd; expiresAt := expires |})
  /\ (valid_binary prec emax C = true -> C <> S754_nan ->
      exists (s : bool) (n : N),
        toFixed1 F0 = FixedDecimal s n
        /\ nearest_tenths F0 s n
        /\ F = match n with
               | N0 => S754_zero s
               | Npos p => div (S754_finite s p 0) (ofZ 10)
               end)
  /\ (forall (loc' : string) (w' : World) (d' : Upstream.Data)
            (c' : Upstream.Current) (l' : Upstream.Location),
        truthy (config_weather_apiKey w') = true ->
        network w' (length (requests w')) loc' = Upstream.Resolved (Some d') ->
        Upstream.current d' = Some c' ->
        Upstream.location d' = Some l' ->
        Upstream.temp_c c' = C ->
        exists wd', fst (weatherService.fetchWeatherFromAPI loc' fahrenheit w') = Return wd'
                    /\ temperature wd' = F)
  /\ (forall (s s' : bool) (m : positive) (e : Z) (n : N),
        toFixed1 (S754_finite s m e) = FixedDecimal s' n ->
        s' = s
        /\ 2 * pow2 (- e) * Z.of_N n <= 20 * Z.pos m * pow2 e + pow2 (- e)
           < 2 * pow2 (- e) * (Z.of_N n + 1))
  /\ (C = ofZ 20 -> F = ofZ 68)
  /\ (C = ofZ 0 -> F = ofZ 32)
  /\ (C = ofTenths 203 -> F = ofTenths 685)
  /\ (C = ofTenths (-178) -> F = S754_zero true).
Proof.
  intros Hkey Hnet Hcur Hloc Himp C F0 F r.
  split; [|split; [|split; [|split; [|split; [|split; [|split]]]]]].
  - subst r. rewrite (fetch_success_eq _ _ _ _ _ _ Hkey Hnet Hcur Hloc Himp).
    eexists _, _. cbn [fst snd]. split; [reflexivity|].
    split; [reflexivity|]. split; [reflexivity|].
    cbn. apply lookup_insert_eq.
  - intros Hvalid Hnan.
    pose proof (plausible_below C Hvalid Hnan Himp) as Hb.
    apply celsiusToFahrenheit_below in Hb.
    destruct (toFixed1_below _ Hb) as (s & n & Hfix & Hnear).
    exists s, n. split; [exact Hfix|]. split; [exact Hnear|].
    subst F.
    change (toFixed1 F0) with (toFixed1 (weatherService.celsiusToFahrenheit C)).
    rewrite Hfix. by destruct n.
  - intros loc' w' d' c' l' Hkey' Hnet' Hcur' Hloc' HC.
    assert (Himp' : implausible (Upstream.temp_c c') = false) by (by rewrite HC).
    rewrite (fetch_success_eq _ _ _ _ _ _ Hkey' Hnet' Hcur' Hloc' Himp').
    eexists. split; [reflexivity|]. cbn. by rewrite HC.
  - exact toFixed1_nearest.
  - intros HC. subst F F0. rewrite HC. by vm_compute.
  - intros HC. subst F F0. rewrite HC. by vm_compute.
  - intros HC. subst F F0. rewrite HC. by vm_compute.
  - intros HC. subst F F0. rewrite HC. by vm_compute.
Qed.

(** ** Keys and units *)

Lemma fetch_try_return (loc : string) (u : TemperatureUnit)
    (w w1 : World) (d : WeatherData) :
  weatherService.fetchWeatherFromAPI_try loc u w = (Return d, w1) ->
  w1 = stored loc u d w.
Proof.
  rewrite fetch_try_eq. intros H.
  repeat match type of H with
         | (if ?b then _ else _) = _ => destruct b
         | match ?x with _ => _ end = _ => destruct x
         end;
    cbn zeta in H; inversion H; subst; reflexivity.
Qed.

(** A fetch for a key touches no entry stored under another key. *)
Lemma fetch_other_keys (loc : string) (u : TemperatureUnit) (w : World) (k : string) :
  k <> weatherService.cacheKey loc u ->
  cache (weatherCache (snd (weatherService.fetchWeatherFromAPI loc u w))) !! k =
  cache (weatherCache w) !! k.
Proof.
  intros Hk.
  destruct (weatherService.fetchWeatherFromAPI_try loc u w) as [[d|e] w1] eqn:Htry.
  - rewrite (fetch_succeeded_eq _ _ _ _ _ Htry), (fetch_try_return _ _ _ _ _ Htry).
    cbn. by rewrite lookup_insert_ne.
  - destruct (fetch_failed_store _ _ _ _ _ Htry) as [_ ->].
    destruct (cache (weatherCache w) !! weatherService.cacheKey loc u) as [entry|];
      [|reflexivity].
    destruct (expiresAt entry <? now w1); [|reflexivity].
    by rewrite lookup_delete_ne.
Qed.

(** C8. The key [`${location}_${unit}`] determines the location and the
    unit, for every location string (so for those of 1 to 50 characters)
    and the two units: equal pairs give the same key and different pairs
    different keys.  Hence storing a snapshot under the fahrenheit key of
    a location, and a whole fetch in fahrenheit, whether it succeeds or
    fails, leave the entry under the celsius key of that location as it
    was. *)
Theorem C8_cache_key_injective :
  (forall (l1 l2 : string) (u1 u2 : TemperatureUnit),
      weatherService.cacheKey l1 u1 = weatherService.cacheKey l2 u2
      <-> l1 = l2 /\ u1 = u2)
  /\ (forall (loc : string) (d : WeatherData) (w : World),
         cache (weatherCache
                  (snd (WeatherCache.set (weatherService.cacheKey loc fahrenheit) d w)))
           !! weatherService.cacheKey loc celsius
         = cache (weatherCache w) !! weatherService.cacheKey loc celsius)
  /\ (forall (loc : string) (w : World),
         cache (weatherCache
                  (snd (weatherService.fetchWeatherFromAPI loc fahrenheit w)))
           !! weatherService.cacheKey loc celsius
         = cache (weatherCache w) !! weatherService.cacheKey loc celsius).
Proof.
  assert (Hne : forall loc, weatherService.cacheKey loc celsius
                            <> weatherService.cacheKey loc fahrenheit).
  { intros loc H. by apply cacheKey_inj in H as [_ ?]. }
  split; [|split].
  - intros l1 l2 u1 u2. split; [apply cacheKey_inj | by intros [-> ->]].
  - intros loc d w. rewrite set_eq. cbn. rewrite lookup_insert_ne; [done|].
    intros H. by apply (Hne loc).
  - intros loc w. apply fetch_other_keys, Hne.
Qed.

(** ** The service refresh and the gate *)

(** The fetch never reads the refresh instants: changing them changes
    neither its result, nor the cache it leaves, nor what it requests. *)
Lemma fetch_ignores_refresh_times (loc : string) (u : TemperatureUnit)
    (m : gmap string Z) (w : World) :
  let r := weatherService.fetchWeatherFromAPI loc u w in
  let r' := weatherService.fetchWeatherFromAPI loc u (with_lastRefreshTimes m w) in
  fst r' = fst r
  /\ cache (weatherCache (snd r')) = cache (weatherCache (snd r))
  /\ requests (snd r') = requests (snd r).
Proof.
  cbn zeta. unfold weatherService.fetchWeatherFromAPI, try_catch.
  rewrite !fetch_try_eq.
  cbn [with_lastRefreshTimes set_weatherCache config_weather_apiKey network requests].
  destruct (negb (truthy (config_weather_apiKey w))).
  2: destruct (network w (length (requests w)) loc) as [msg um|[d|]].
  3: destruct (Upstream.current d) as [c|].
  3: destruct (implausible (Upstream.temp_c c)).
  4: destruct (Upstream.location d) as [l|].
  4: by cbn.
  all: rewrite !fetch_catch_eq; unfold now; cbn;
    destruct (cache (weatherCache w) !! weatherService.cacheKey loc u) as [entry|];
    [|by cbn];
    match goal with |- context [?a >? ?b] => destruct (a >? b) end; by cbn.
Qed.

(** C10. The service [refreshWeather] is [fetchWeatherFromAPI].  It has no
    gate of its own: it never reads the refresh instants, and where the
    gate denies a refresh of the location, a direct call still sends the
    upstream request.  The gate is a step of the HTTP handler, evaluated
    before the service refresh: the handler runs the service refresh in
    the world the gate has left.  Between the two nothing is reserved: an
    upstream request in flight for the location leaves the verdict of the
    gate as it was. *)
Theorem C10_refresh_is_fetch :
  (forall (loc : string) (u : TemperatureUnit),
      weatherService.refreshWeather loc u = weatherService.fetchWeatherFromAPI loc u)
  /\ (forall (loc : string) (u : TemperatureUnit) (m : gmap string Z) (w : World),
         let r := weatherService.refreshWeather loc u w in
         let r' := weatherService.refreshWeather loc u (with_lastRefreshTimes m w) in
         fst r' = fst r
         /\ cache (weatherCache (snd r')) = cache (weatherCache (snd r))
         /\ requests (snd r') = requests (snd r))
  /\ (forall (loc : string) (u : TemperatureUnit) (w : World),
         fst (weatherService.checkRefreshEligibility loc w) = Return false ->
         truthy (config_weather_apiKey w) = true ->
         requests (snd (weatherService.refreshWeather loc u w)) = (requests w ++ [loc])%list)
  /\ (forall (loc : string) (u : TemperatureUnit) (w : World),
         (1 <= String.length loc <= 50)%nat ->
         controller.refreshWeather (request_for loc u) w =
         match weatherService.checkRefreshEligibility loc w with
         | (Return false, w1) => (Return (rate_limited (now w1)), tick w1)
         | (Return true, w1) =>
             match weatherService.refreshWeather loc u w1 with
             | (Return d, w2) =>
                 (Return (Sent 200 (SuccessResponse d (now w2))), tick w2)
             | (Throw e, w2) => controller.on_error e w2
             end
         | (Throw e, w1) => controller.on_error e w1
         end)
  /\ (forall (loc q : string) (w : World),
         fst (weatherService.checkRefreshEligibility loc (requested q w)) =
         fst (weatherService.checkRefreshEligibility loc w)).
Proof.
  split; [reflexivity|]. split; [exact fetch_ignores_refresh_times|].
  split; [|split; [exact controller_refreshWeather_eq|]].
  - intros loc u w _ Hkey.
    unfold weatherService.refreshWeather, weatherService.fetchWeatherFromAPI, try_catch.
    rewrite fetch_try_eq, Hkey. cbn [negb].
    destruct (network w (length (requests w)) loc) as [msg um|[d|]].
    2: destruct (Upstream.current d) as [c|].
    2: destruct (implausible (Upstream.temp_c c)).
    3: destruct (Upstream.location d) as [l|].
    3: by cbn.
    all: rewrite fetch_catch_eq; unfold now; cbn;
      destruct (cache (weatherCache w) !! weatherService.cacheKey loc u) as [entry|];
      [|by cbn];
      match goal with |- context [?a >? ?b] => destruct (a >? b) end; by cbn.
  - intros loc q w. rewrite !checkRefreshEligibility_eq. cbn.
    destruct (lastRefreshTimes (weatherCache w) !! loc) as [t|]; [|reflexivity].
    destruct (t =? 0); reflexivity.
Qed.

(** * Concrete runs ************************************************************)

(** C1, as stated, fails: a snapshot stored for ("Tokyo", celsius) whose
    TTL has passed is not served when the next fetch times out.  The
    fallback's [get] deletes it and the fetch throws WEATHER_API_ERROR. *)
Lemma C1_expired_snapshot_not_served :
  cache (weatherCache Sample.tokyo_expired) !! weatherService.cacheKey "Tokyo" celsius
    = Some Sample.tokyo_entry
  /\ fst (weatherService.fetchWeatherFromAPI_try "Tokyo" celsius Sample.tokyo_expired)
     = Throw Sample.timeout_error
  /\ expiresAt Sample.tokyo_entry
     < now (snd (weatherService.fetchWeatherFromAPI_try "Tokyo" celsius Sample.tokyo_expired))
  /\ fst (weatherService.fetchWeatherFromAPI "Tokyo" celsius Sample.tokyo_expired)
     = Throw {| name := "Error"; message := "Failed to fetch weather data";
                code := Some "WEATHER_API_ERROR"; response_error_message := None |}
  /\ fst (weatherService.fetchWeatherFromAPI "Tokyo" celsius Sample.tokyo_expired)
     <> Return (with_status Sample.tokyo_snapshot offline)
  /\ cache (weatherCache
              (snd (weatherService.fetchWeatherFromAPI "Tokyo" celsius Sample.tokyo_expired)))
       !! weatherService.cacheKey "Tokyo" celsius = None.
Proof.
  split; [by vm_compute|]. split; [by vm_compute|]. split; [by vm_compute|].
  split; [by vm_compute|]. split; [by vm_compute|]. by vm_compute.
Qed.

(** The fallback serves a snapshot that has not expired. *)
Lemma C1_offline_fallback_witness :
  fst (weatherService.fetchWeatherFromAPI_try "Tokyo" celsius Sample.tokyo_cached)
    = Throw Sample.timeout_error
  /\ exists d,
       fst (weatherService.fetchWeatherFromAPI "Tokyo" celsius Sample.tokyo_cached)
         = Return d
       /\ status d = offline
       /\ temperature d = ofTenths 185
       /\ fetchedAt d = 1700000001000.
Proof.
  assert (Hfail : fst (weatherService.fetchWeatherFromAPI_try "Tokyo" celsius
                         Sample.tokyo_cached) = Throw Sample.timeout_error)
    by (vm_compute; reflexivity).
  split; [exact Hfail|].
  pose proof (C1_offline_fallback "Tokyo" celsius Sample.tokyo_cached
                Sample.timeout_error Hfail) as H.
  cbv zeta in H. destruct H as (Hhit & _).
  destruct (Hhit Sample.tokyo_entry) as (d & Hd & Hs & Ht & _ & _ & _ & Hf).
  - vm_compute; reflexivity.
  - vm_compute; intro; discriminate.
  - exists d. rewrite Ht, Hf. repeat split; assumption.
Defined.

(** An entry stored by [set] is read back within its TTL. *)
Lemma C2_get_set_ttl_witness :
  cache (weatherCache Sample.tokyo_set) !! "Tokyo_celsius"
    = Some {| data := Sample.tokyo_snapshot; expiresAt := 1700000000000 + 900000 |}
  /\ fst (WeatherCache.get "Tokyo_celsius" Sample.tokyo_set)
     = Return (Some Sample.tokyo_snapshot).
Proof.
  assert (Hentry : cache (weatherCache Sample.tokyo_set) !! "Tokyo_celsius"
                   = Some {| data := Sample.tokyo_snapshot;
                             expiresAt := 1700000000000 + 900000 |})
    by (vm_compute; reflexivity).
  split; [exact Hentry|].
  pose proof (C2_get_set_ttl
                (Sample.fresh Sample.steady
                   (Sample.first_only (Sample.answer (ofTenths 185) "Tokyo")))
                Sample.tokyo_set "Tokyo_celsius" Sample.tokyo_snapshot Hentry) as H.
  cbv zeta in H. destruct H as (_ & Hhit & _).
  apply Hhit. vm_compute; intro; discriminate.
Defined.

(** A hit whose age, at the second clock reading, exceeds one hour. *)
Lemma C3_staleness_label_witness :
  cache (weatherCache Sample.tokyo_stalled) !! weatherService.cacheKey "Tokyo" celsius
    = Some Sample.tokyo_entry
  /\ now Sample.tokyo_stalled <= expiresAt Sample.tokyo_entry
  /\ exists d,
       fst (weatherService.getCurrentWeather "Tokyo" celsius Sample.tokyo_stalled)
         = Return d
       /\ status d = outdated
       /\ temperature d = ofTenths 185.
Proof.
  assert (Hentry : cache (weatherCache Sample.tokyo_stalled)
                     !! weatherService.cacheKey "Tokyo" celsius
                   = Some Sample.tokyo_entry) by (vm_compute; reflexivity).
  assert (Hle : now Sample.tokyo_stalled <= expiresAt Sample.tokyo_entry)
    by (vm_compute; intro; discriminate).
  split; [exact Hentry|]. split; [exact Hle|].
  pose proof (C3_staleness_label "Tokyo" celsius Sample.tokyo_stalled
                Sample.tokyo_entry Hentry Hle) as H.
  cbv zeta in H. destruct H as ((d & Hd & Hout & _ & Ht & _) & _).
  exists d. split; [exact Hd|]. split.
  - apply Hout. vm_compute; reflexivity.
  - rewrite Ht. reflexivity.
Defined.

(** One second after a fetch of ("Tokyo", celsius), a refresh of
    ("Tokyo", fahrenheit) is answered 429. *)
Lemma C4_refresh_gate_witness :
  (forall t, lastRefreshTimes (weatherCache Sample.tokyo_cached) !! "Tokyo" = Some t ->
             t <> 0)
  /\ (1 <= String.length "Tokyo" <= 50)%nat
  /\ fst (controller.refreshWeather (request_for "Tokyo" fahrenheit) Sample.tokyo_cached)
     = Return (rate_limited 1700000005000).
Proof.
  assert (Hnz : forall t,
             lastRefreshTimes (weatherCache Sample.tokyo_cached) !! "Tokyo" = Some t ->
             t <> 0).
  { intros t Ht. vm_compute in Ht. injection Ht as <-. discriminate. }
  assert (Hlen : (1 <= String.length "Tokyo" <= 50)%nat) by (cbn; lia).
  split; [exact Hnz|]. split; [exact Hlen|].
  pose proof (C4_refresh_gate "Tokyo" Sample.tokyo_cached Hnz Hlen) as H.
  cbv zeta in H. destruct H as (b & _ & _ & _ & _ & _ & _ & Hcross).
  rewrite (Hcross (Sample.fresh Sample.steady
                     (Sample.first_only (Sample.answer (ofTenths 185) "Tokyo")))
                  Sample.tokyo_snapshot).
  - vm_compute; reflexivity.
  - vm_compute; reflexivity.
  - vm_compute; reflexivity.
Defined.

(** Upstream readings of 65.0 and -95.0 are rejected. *)
Lemma C5_plausibility_guard_witness :
  (truthy (config_weather_apiKey (Sample.reading (ofZ 65))) = true
   /\ gtb (ofZ 65) (ofZ 60) = true
   /\ fst (weatherService.fetchWeatherFromAPI_try "Paris" fahrenheit
             (Sample.reading (ofZ 65)))
      = Throw (Error "Temperature value outside plausible range"))
  /\ (truthy (config_weather_apiKey (Sample.reading (ofZ (-95)))) = true
      /\ ltb (ofZ (-95)) (ofZ (-90)) = true
      /\ fst (weatherService.fetchWeatherFromAPI_try "Paris" celsius
                (Sample.reading (ofZ (-95))))
         = Throw (Error "Temperature value outside plausible range")).
Proof.
  split.
  - assert (Hgt : gtb (ofZ 65) (ofZ 60) = true) by (vm_compute; reflexivity).
    split; [reflexivity|]. split; [exact Hgt|].
    pose proof (C5_plausibility_guard "Paris" fahrenheit (Sample.reading (ofZ 65))
                  (Sample.answer (ofZ 65) "Paris") {| Upstream.temp_c := ofZ 65 |}
                  eq_refl eq_refl eq_refl) as H.
    cbv zeta in H. destruct H as (Hout & _).
    destruct (Hout (or_intror Hgt)) as (Htry & _). rewrite Htry. reflexivity.
  - assert (Hlt : ltb (ofZ (-95)) (ofZ (-90)) = true) by (vm_compute; reflexivity).
    split; [reflexivity|]. split; [exact Hlt|].
    pose proof (C5_plausibility_guard "Paris" celsius (Sample.reading (ofZ (-95)))
                  (Sample.answer (ofZ (-95)) "Paris") {| Upstream.temp_c := ofZ (-95) |}
                  eq_refl eq_refl eq_refl) as H.
    cbv zeta in H. destruct H as (Hout & _).
    destruct (Hout (or_introl Hlt)) as (Htry & _). rewrite Htry. reflexivity.
Defined.

(** An upstream reading of 20.3 is a binary64 number inside the guard;
    its Fahrenheit value 68.54 is stored and returned as 68.5 °F, and
    [toFixed(1)] prints it with 685 tenths. *)
Lemma C6_fahrenheit_conversion_witness :
  truthy (config_weather_apiKey (Sample.reading (ofTenths 203))) = true
  /\ implausible (ofTenths 203) = false
  /\ valid_binary prec emax (ofTenths 203) = true
  /\ (exists wd expires,
       fst (weatherService.fetchWeatherFromAPI "Paris" fahrenheit
              (Sample.reading (ofTenths 203)))
         = Return wd
       /\ temperature wd = ofTenths 685
       /\ unit wd = "°F"
       /\ cache (weatherCache
                   (snd (weatherService.fetchWeatherFromAPI "Paris" fahrenheit
                           (Sample.reading (ofTenths 203)))))
            !! weatherService.cacheKey "Paris" fahrenheit
          = Some {| data := wd; expiresAt := expires |})
  /\ exists (s : bool) (n : N),
       toFixed1 (weatherService.celsiusToFahrenheit (ofTenths 203)) = FixedDecimal s n
       /\ nearest_tenths (weatherService.celsiusToFahrenheit (ofTenths 203)) s n
       /\ ofTenths 685 = match n with
                         | N0 => S754_zero s
                         | Npos p => div (S754_finite s p 0) (ofZ 10)
                         end.
Proof.
  assert (Himp : implausible (ofTenths 203) = false) by (vm_compute; reflexivity).
  assert (Hvalid : valid_binary prec emax (ofTenths 203) = true)
    by (vm_compute; reflexivity).
  assert (Hnan : ofTenths 203 <> S754_nan) by (vm_compute; discriminate).
  split; [reflexivity|]. split; [exact Himp|]. split; [exact Hvalid|].
  pose proof (C6_fahrenheit_conversion "Paris" (Sample.reading (ofTenths 203))
                (Sample.answer (ofTenths 203) "Paris")
                {| Upstream.temp_c := ofTenths 203 |}
                {| Upstream.name := "Paris" |} eq_refl eq_refl eq_refl eq_refl Himp) as H.
  cbv zeta in H.
  destruct H as ((wd & expires & Hr & Ht & Hu & Hc) & Hround & _ & _ & _ & _ & H203 & _).
  cbn [Upstream.temp_c] in Hround, H203, Ht.
  specialize (H203 eq_refl).
  split.
  - exists wd, expires. split; [exact Hr|]. split; [|split; [exact Hu | exact Hc]].
    rewrite Ht. exact H203.
  - destruct (Hround Hvalid Hnan) as (s & n & Hfix & Hnear & HF).
    exists s, n. split; [exact Hfix|]. split; [exact Hnear|].
    rewrite <- HF. symmetry. exact H203.
Defined.

(** A failed refresh after the TTL: the refresh times are untouched and
    the only change is the deletion of the expired entry. *)
Lemma C9_failed_attempt_frame_witness :
  fst (weatherService.fetchWeatherFromAPI_try "Tokyo" celsius Sample.tokyo_expired)
    = Throw Sample.timeout_error
  /\ lastRefreshTimes
       (weatherCache
          (snd (weatherService.fetchWeatherFromAPI "Tokyo" celsius Sample.tokyo_expired)))
     = lastRefreshTimes (weatherCache Sample.tokyo_expired)
  /\ cache
       (weatherCache
          (snd (weatherService.fetchWeatherFromAPI "Tokyo" celsius Sample.tokyo_expired)))
     = delete (weatherService.cacheKey "Tokyo" celsius)
         (cache (weatherCache Sample.tokyo_expired)).
Proof.
  assert (Hfail : fst (weatherService.fetchWeatherFromAPI_try "Tokyo" celsius
                         Sample.tokyo_expired) = Throw Sample.timeout_error)
    by (vm_compute; reflexivity).
  split; [exact Hfail|].
  pose proof (C9_failed_attempt_frame "Tokyo" celsius Sample.tokyo_expired
                Sample.timeout_error Hfail) as H.
  cbv zeta in H. destruct H as (_ & Hl & Hc & _).
  split; [exact Hl|]. rewrite Hc. vm_compute; reflexivity.
Defined.

(** The gate denies, and a direct call of the service refresh still goes
    upstream. *)
Lemma C10_refresh_is_fetch_witness :
  fst (weatherService.checkRefreshEligibility "Tokyo" Sample.tokyo_cached) = Return false
  /\ requests (snd (weatherService.refreshWeather "Tokyo" celsius Sample.tokyo_cached))
     = ["Tokyo"; "Tokyo"].
Proof.
  assert (Hdeny : fst (weatherService.checkRefreshEligibility "Tokyo" Sample.tokyo_cached)
                  = Return false) by (vm_compute; reflexivity).
  split; [exact Hdeny|].
  destruct C10_refresh_is_fetch as (_ & _ & Hbypass & _).
  rewrite (Hbypass "Tokyo" celsius Sample.tokyo_cached Hdeny eq_refl).
  vm_compute; reflexivity.
Defined.

(** The guard reads the Celsius value: 50.0 passes in fahrenheit though
    the stored 122.0 is above 60. *)
Example guard_reads_celsius :
  exists d,
    fst (weatherService.fetchWeatherFromAPI "Paris" fahrenheit (Sample.reading (ofZ 50)))
      = Return d
    /\ temperature d = ofZ 122
    /\ gtb (temperature d) (ofZ 60) = true.
Proof. eexists. split; [by vm_compute|]. split; by vm_compute. Qed.

(** A timed-out refresh is one of the failures of the attempt. *)
Example timeout_is_a_failure : attempt_fails "Tokyo" Sample.tokyo_cached.
Proof. by eapply fails_rejected. Qed.

(** The sweep on a store with one expired and one live entry. *)
Example sweep_removes_expired_only :
  let w := with_cache (<["Oslo_celsius" := {| data := Sample.tokyo_snapshot;
                                              expiresAt := 1700000000000 |}]>
                         (cache (weatherCache Sample.tokyo_cached)))
                      Sample.tokyo_cached in
  let w' := snd (WeatherCache.cleanup w) in
  cache (weatherCache w) !! "Oslo_celsius" <> None
  /\ cache (weatherCache w') !! "Oslo_celsius" = None
  /\ cache (weatherCache w') !! "Tokyo_celsius" = Some Sample.tokyo_entry
  /\ lastRefreshTimes (weatherCache w') !! "Tokyo" = Some 1700000003000.
Proof. cbv zeta. split; [by vm_compute|]. split; [by vm_compute|]. split; by vm_compute. Qed.

(** * Further properties of the code *******************************************)

(** ** The cache on its own *)

(** X1. A lookup that finds nothing settles the key: whether the entry was
    missing or has just been deleted as expired, a second lookup of the
    key, at any instant, returns nothing and changes nothing at all. *)
Theorem get_miss_is_stable (key : string) (w : World) :
  fst (WeatherCache.get key w) = Return None ->
  WeatherCache.get key (snd (WeatherCache.get key w))
  = (Return None, snd (WeatherCache.get key w)).
Proof.
  rewrite (get_eq key w).
  destruct (cache (weatherCache w) !! key) as [entry|] eqn:Hentry.
  - destruct (now w >? expiresAt entry); [|discriminate]. intros _.
    cbn [snd]. rewrite get_eq. cbn. by rewrite lookup_delete_eq.
  - intros _. cbn [snd]. by rewrite get_eq, Hentry.
Qed.

Lemma cleanup_eq (w : World) :
  WeatherCache.cleanup w =
  (Return tt,
   with_cache (map_fold (WeatherCache.cleanup_step (now w))
                 (cache (weatherCache w)) (cache (weatherCache w))) (tick w)).
Proof. reflexivity. Qed.

Lemma cleanup_lookup (w : World) (key : string) :
  cache (weatherCache (snd (WeatherCache.cleanup w))) !! key =
  match cache (weatherCache w) !! key with
  | Some e => if now w >? expiresAt e then None else Some e
  | None => None
  end.
Proof.
  rewrite cleanup_eq. cbn. rewrite cleanup_fold_lookup.
  by destruct (cache (weatherCache w) !! key).
Qed.

(** X2. The sweep is invisible to readers: a lookup that reads the clock no
    earlier than the sweep did returns the same result whether or not the
    sweep has run in between, and leaves the same entry under the key. *)
Theorem sweep_is_transparent_to_get (key : string) (w : World) :
  now w <= clock w (S (ticks w)) ->
  let swept := snd (WeatherCache.cleanup w) in
  fst (WeatherCache.get key swept) = fst (WeatherCache.get key (tick w))
  /\ cache (weatherCache (snd (WeatherCache.get key swept))) !! key
     = cache (weatherCache (snd (WeatherCache.get key (tick w)))) !! key.
Proof.
  intros Hmono swept.
  assert (Hnow : now swept = clock w (S (ticks w))) by reflexivity.
  assert (Hnow' : now (tick w) = clock w (S (ticks w))) by reflexivity.
  assert (Hswept : cache (weatherCache swept) !! key =
                   match cache (weatherCache w) !! key with
                   | Some e => if now w >? expiresAt e then None else Some e
                   | None => None
                   end) by apply cleanup_lookup.
  clearbody swept. rewrite !get_eq, Hnow, Hnow', Hswept.
  change (cache (weatherCache (tick w))) with (cache (weatherCache w)).
  destruct (cache (weatherCache w) !! key) as [e|] eqn:He;
    [|cbn; by rewrite Hswept, He].
  destruct (Z.gtb_spec (now w) (expiresAt e)) as [Hexp|Hlive].
  - destruct (Z.gtb_spec (clock w (S (ticks w))) (expiresAt e)); [|lia].
    cbn. by rewrite lookup_delete_eq, Hswept.
  - destruct (clock w (S (ticks w)) >? expiresAt e); cbn.
    + by rewrite !lookup_delete_eq.
    + by rewrite Hswept, He.
Qed.

(** X3. A later sweep subsumes an earlier one: sweeping twice, the second
    time no earlier than the first, leaves the cache a single sweep at the
    second instant would leave. *)
Theorem later_sweep_subsumes (w : World) :
  now w <= clock w (S (ticks w)) ->
  cache (weatherCache (snd (WeatherCache.cleanup (snd (WeatherCache.cleanup w)))))
  = cache (weatherCache (snd (WeatherCache.cleanup (tick w)))).
Proof.
  intros Hmono. apply map_eq. intros key.
  rewrite (cleanup_lookup (snd (WeatherCache.cleanup w))), (cleanup_lookup (tick w)),
    (cleanup_lookup w).
  change (now (snd (WeatherCache.cleanup w))) with (clock w (S (ticks w))).
  change (now (tick w)) with (clock w (S (ticks w))).
  change (cache (weatherCache (tick w))) with (cache (weatherCache w)).
  destruct (cache (weatherCache w) !! key) as [e|]; [|reflexivity].
  destruct (Z.gtb_spec (now w) (expiresAt e)); [|reflexivity].
  destruct (Z.gtb_spec (clock w (S (ticks w))) (expiresAt e)); [reflexivity | lia].
Qed.

(** X4. [clear] resets the cache and the rate limiter together: afterwards
    every lookup misses and the gate allows every location, neither
    reading the clock, and a fetch that fails has nothing to fall back
    on. *)
Theorem clear_resets (w : World) :
  let w' := snd (WeatherCache.clear w) in
  (forall key : string, WeatherCache.get key w' = (Return None, w'))
  /\ (forall loc : string,
         weatherService.checkRefreshEligibility loc w' = (Return true, w'))
  /\ (forall (loc : string) (u : TemperatureUnit) (e : JsError),
         fst (weatherService.fetchWeatherFromAPI_try loc u w') = Throw e ->
         fst (weatherService.fetchWeatherFromAPI loc u w')
         = Throw (weatherService.apiError e)).
Proof.
  intros w'. split; [|split].
  - intros key. rewrite get_eq. subst w'. cbn. by rewrite lookup_empty.
  - intros loc. rewrite checkRefreshEligibility_eq. subst w'. cbn.
    by rewrite lookup_empty.
  - intros loc u e Hfst. apply throw_inv in Hfst as Hfail.
    destruct (fetch_try_throw _ _ _ _ _ Hfail) as (Hc & _ & _).
    rewrite (fetch_failed_eq _ _ _ _ _ Hfail), fetch_catch_eq, Hc.
    subst w'. cbn. by rewrite lookup_empty.
Qed.

(** X5. A recorded refresh instant is read back for its location, and for
    no other, unless it is [0]: the reader's [|| null] turns a recorded
    [0] into "never refreshed", and the gate then allows the refresh. *)
Theorem refresh_time_round_trip (loc : string) (t : Z) (w : World) :
  let w' := snd (WeatherCache.setLastRefreshTime loc t w) in
  WeatherCache.getLastRefreshTime loc w'
  = (Return (if t =? 0 then None else Some t), w')
  /\ (forall loc' : string, loc' <> loc ->
         fst (WeatherCache.getLastRefreshTime loc' w')
         = fst (WeatherCache.getLastRefreshTime loc' w))
  /\ cache (weatherCache w') = cache (weatherCache w)
  /\ (t = 0 -> weatherService.checkRefreshEligibility loc w' = (Return true, w'))
  /\ (t <> 0 ->
      weatherService.checkRefreshEligibility loc w'
      = (Return (now w' - t >=? 30000), tick w')).
Proof.
  intros w'.
  assert (Hl : lastRefreshTimes (weatherCache w')
               = <[loc := t]> (lastRefreshTimes (weatherCache w))) by reflexivity.
  split; [|split; [|split; [reflexivity|split]]].
  - unfold WeatherCache.getLastRefreshTime, WeatherCache.this, bind.
    rewrite Hl, lookup_insert_eq. by destruct (t =? 0).
  - intros loc' Hne. unfold WeatherCache.getLastRefreshTime, WeatherCache.this, bind.
    rewrite Hl, lookup_insert_ne by done.
    destruct (lastRefreshTimes (weatherCache w) !! loc') as [t'|]; [|reflexivity].
    by destruct (t' =? 0).
  - intros ->. by rewrite checkRefreshEligibility_eq, Hl, lookup_insert_eq.
  - intros Hnz. rewrite checkRefreshEligibility_eq, Hl, lookup_insert_eq.
    by destruct (Z.eqb_spec t 0).
Qed.

(** ** What the service returns and throws *)

Lemma fetch_try_return_snapshot (loc : string) (u : TemperatureUnit)
    (w w1 : World) (d : WeatherData) :
  weatherService.fetchWeatherFromAPI_try loc u w = (Return d, w1) ->
  exists (t : number) (place : string), d = fresh_snapshot u t place w.
Proof.
  rewrite fetch_try_eq. intros H.
  repeat match type of H with
         | (if ?b then _ else _) = _ => destruct b
         | match ?x with _ => _ end = _ => destruct x
         end;
    cbn zeta in H; inversion H; subst; eauto.
Qed.

Lemma fetch_return_cases (loc : string) (u : TemperatureUnit) (w : World)
    (d : WeatherData) :
  fst (weatherService.fetchWeatherFromAPI loc u w) = Return d ->
  (exists (t : number) (place : string),
      d = fresh_snapshot u t place w
      /\ fst (weatherService.fetchWeatherFromAPI_try loc u w) = Return d
      /\ snd (weatherService.fetchWeatherFromAPI loc u w) = stored loc u d w)
  \/ (exists (e : JsError) (entry : CacheEntry),
         fst (weatherService.fetchWeatherFromAPI_try loc u w) = Throw e
         /\ cache (weatherCache w) !! weatherService.cacheKey loc u = Some entry
         /\ d = with_status (data entry) offline).
Proof.
  destruct (weatherService.fetchWeatherFromAPI_try loc u w) as [[d'|e] w1] eqn:Htry.
  - rewrite (fetch_succeeded_eq _ _ _ _ _ Htry). cbn. intros [= ->]. left.
    destruct (fetch_try_return_snapshot _ _ _ _ _ Htry) as (t & place & ->).
    exists t, place. repeat split. exact (fetch_try_return _ _ _ _ _ Htry).
  - intros Hr. right. exists e.
    destruct (fetch_failed_result _ _ _ _ _ Htry) as [Hthrow|(entry & He & Hret)].
    + rewrite Hthrow in Hr. discriminate.
    + rewrite Hret in Hr. injection Hr as <-. by exists entry.
Qed.

Lemma fetch_throw_form (loc : string) (u : TemperatureUnit) (w : World)
    (e' : JsError) :
  fst (weatherService.fetchWeatherFromAPI loc u w) = Throw e' ->
  exists e : JsError,
    fst (weatherService.fetchWeatherFromAPI_try loc u w) = Throw e
    /\ e' = weatherService.apiError e.
Proof.
  destruct (weatherService.fetchWeatherFromAPI_try loc u w) as [[d'|e] w1] eqn:Htry.
  - rewrite (fetch_succeeded_eq _ _ _ _ _ Htry). discriminate.
  - intros Hr. exists e. split; [reflexivity|].
    destruct (fetch_failed_result _ _ _ _ _ Htry) as [Hthrow|(entry & _ & Hret)].
    + rewrite Hthrow in Hr. by injection Hr.
    + rewrite Hret in Hr. discriminate.
Qed.

Lemma getCurrentWeather_eq (loc : string) (u : TemperatureUnit) (w : World) :
  weatherService.getCurrentWeather loc u w =
  let key := weatherService.cacheKey loc u in
  match cache (weatherCache w) !! key with
  | None => weatherService.fetchWeatherFromAPI loc u w
  | Some entry =>
      if now w >? expiresAt entry
      then weatherService.fetchWeatherFromAPI loc u
             (with_cache (delete key (cache (weatherCache w))) (tick w))
      else (Return (with_status (data entry)
                      (if clock w (S (ticks w)) - fetchedAt (data entry) >? 3600000
                       then outdated else online)),
            tick (tick w))
  end.
Proof.
  unfold weatherService.getCurrentWeather, bind. rewrite get_eq. cbn zeta.
  destruct (cache (weatherCache w) !! weatherService.cacheKey loc u) as [entry|];
    [|reflexivity].
  destruct (now w >? expiresAt entry); reflexivity.
Qed.

(** The world in which [getCurrentWeather] goes on to fetch, after a miss. *)
Lemma getCurrentWeather_miss (loc : string) (u : TemperatureUnit) (w : World) :
  let key := weatherService.cacheKey loc u in
  (exists entry, cache (weatherCache w) !! key = Some entry
                 /\ now w <= expiresAt entry)
  \/ exists w1 : World,
       weatherService.getCurrentWeather loc u w
       = weatherService.fetchWeatherFromAPI loc u w1
       /\ cache (weatherCache w1) !! key = None
       /\ shrinks w w1
       /\ requests w1 = requests w
       /\ config_weather_apiKey w1 = config_weather_apiKey w.
Proof.
  intros key. rewrite getCurrentWeather_eq. fold key. cbn zeta.
  destruct (cache (weatherCache w) !! key) as [entry|] eqn:He.
  - destruct (Z.gtb_spec (now w) (expiresAt entry)).
    + right. eexists. split; [reflexivity|]. cbn.
      split; [apply lookup_delete_eq|]. split; [|by split].
      unfold shrinks, with_cache, tick. cbn.
      split; [reflexivity|]. split; [lia|]. split; [reflexivity|].
      intros k e' [_ Hk]%lookup_delete_Some. exact Hk.
    + left. by exists entry.
  - right. exists w. split; [reflexivity|]. split; [exact He|].
    split; [|by split]. by repeat split.
Qed.

(** X7. A fetch, hence the service [refreshWeather], returns [online] or
    [offline], never [outdated].  It returns [offline] exactly when the
    attempt failed, and then the rest of the snapshot is the entry the
    cache held under the key; it returns [online] with the snapshot just
    built and stored. *)
Theorem refreshWeather_status (loc : string) (u : TemperatureUnit)
    (w : World) (d : WeatherData) :
  fst (weatherService.refreshWeather loc u w) = Return d ->
  status d <> outdated
  /\ (status d = offline <-> attempt_fails loc w)
  /\ (status d = offline ->
      exists entry,
        cache (weatherCache w) !! weatherService.cacheKey loc u = Some entry
        /\ d = with_status (data entry) offline)
  /\ (status d = online ->
      cache (weatherCache (snd (weatherService.refreshWeather loc u w)))
        !! weatherService.cacheKey loc u
      = Some {| data := d; expiresAt := clock w (2 + ticks w)%nat + 900000 |}).
Proof.
  unfold weatherService.refreshWeather. intros Hr.
  destruct (fetch_return_cases _ _ _ _ Hr)
    as [(t & place & -> & Htry & Hw)|(e & entry & Htry & He & ->)].
  - assert (Hnf : ~ attempt_fails loc w).
    { intros [e He]%(fetch_try_throws_iff loc u). rewrite Htry in He. discriminate. }
    cbn. split; [discriminate|]. split; [split; [discriminate | by intros ?]|].
    split; [discriminate|]. intros _. rewrite Hw. cbn. apply lookup_insert_eq.
  - assert (Hf : attempt_fails loc w) by (apply (fetch_try_throws_iff loc u); eauto).
    cbn. split; [discriminate|]. split; [done|]. split; [|discriminate].
    intros _. by exists entry.
Qed.

(** X8. Whatever goes wrong inside, the service functions throw only the
    error built in the [catch] clause: its name is 'Error' and its code
    WEATHER_API_ERROR, which the handlers map to 502.  The gate never
    throws. *)
Theorem service_throws_api_errors_only (loc : string) (u : TemperatureUnit)
    (w : World) :
  (forall e, fst (weatherService.getCurrentWeather loc u w) = Throw e ->
             name e = "Error" /\ code e = Some "WEATHER_API_ERROR")
  /\ (forall e, fst (weatherService.refreshWeather loc u w) = Throw e ->
                name e = "Error" /\ code e = Some "WEATHER_API_ERROR")
  /\ (exists b : bool, fst (weatherService.checkRefreshEligibility loc w) = Return b).
Proof.
  split; [|split].
  - intros e Hr. destruct (getCurrentWeather_miss loc u w) as [(entry & He & Hle)|Hmiss].
    + rewrite (getCurrentWeather_hit _ _ _ _ He Hle) in Hr. discriminate.
    + destruct Hmiss as (w1 & Heq & _). rewrite Heq in Hr.
      by destruct (fetch_throw_form _ _ _ _ Hr) as (e0 & _ & ->).
  - intros e Hr. by destruct (fetch_throw_form _ _ _ _ Hr) as (e0 & _ & ->).
  - rewrite checkRefreshEligibility_eq.
    destruct (lastRefreshTimes (weatherCache w) !! loc) as [t|]; [|by eexists].
    destruct (t =? 0); by eexists.
Qed.

Lemma try_error_response (loc : string) (u : TemperatureUnit) (w : World)
    (e : JsError) :
  fst (weatherService.fetchWeatherFromAPI_try loc u w) = Throw e ->
  response_error_message e =
  if truthy (config_weather_apiKey w)
  then match network w (length (requests w)) loc with
       | Upstream.Rejected _ m => m
       | Upstream.Resolved _ => None
       end
  else None.
Proof.
  rewrite fetch_try_eq.
  destruct (truthy (config_weather_apiKey w)); cbn [negb]; [|by intros [= <-]].
  destruct (network w (length (requests w)) loc) as [msg m|[d|]];
    [by intros [= <-]| |by intros [= <-]].
  destruct (Upstream.current d) as [c|]; [|by intros [= <-]].
  destruct (implausible (Upstream.temp_c c)); [by intros [= <-]|].
  destruct (Upstream.location d) as [l|]; [discriminate | by intros [= <-]].
Qed.

(** X9. The message of the error a fetch throws is the upstream's own
    error message when the request was rejected with a non-empty one, and
    'Failed to fetch weather data' in every other case: the messages of
    the errors raised inside ('Weather API key not configured', 'Invalid
    API response format', 'Temperature value outside plausible range')
    never reach the caller. *)
Theorem thrown_message (loc : string) (u : TemperatureUnit) (w : World)
    (e : JsError) :
  fst (weatherService.refreshWeather loc u w) = Throw e ->
  message e =
  if truthy (config_weather_apiKey w)
  then match network w (length (requests w)) loc with
       | Upstream.Rejected _ (Some m) =>
           if String.eqb m "" then "Failed to fetch weather data" else m
       | _ => "Failed to fetch weather data"
       end
  else "Failed to fetch weather data".
Proof.
  unfold weatherService.refreshWeather. intros Hr.
  destruct (fetch_throw_form _ _ _ _ Hr) as (e0 & Htry & ->).
  apply try_error_response in Htry. unfold weatherService.apiError. cbn [message].
  rewrite Htry.
  destruct (truthy (config_weather_apiKey w)); [|reflexivity].
  destruct (network w (length (requests w)) loc) as [msg [m|]|]; try reflexivity.
  cbn. by destruct (String.eqb m "").
Qed.

Lemma fetch_requests (loc : string) (u : TemperatureUnit) (w : World) :
  requests (snd (weatherService.fetchWeatherFromAPI loc u w)) =
  if truthy (config_weather_apiKey w)
  then (requests w ++ [loc])%list
  else requests w.
Proof.
  unfold weatherService.fetchWeatherFromAPI, try_catch. rewrite fetch_try_eq.
  destruct (truthy (config_weather_apiKey w)); cbn [negb].
  1: destruct (network w (length (requests w)) loc) as [msg um|[d|]].
  2: destruct (Upstream.current d) as [c|].
  2: destruct (implausible (Upstream.temp_c c)).
  3: destruct (Upstream.location d) as [l|].
  3: by cbn.
  all: rewrite fetch_catch_eq; unfold now; cbn;
    destruct (cache (weatherCache w) !! weatherService.cacheKey loc u) as [entry|];
    [|by cbn];
    match goal with |- context [?a >? ?b] => destruct (a >? b) end; by cbn.
Qed.

(** X10. Upstream traffic of the service: a fetch sends exactly one
    request, whose query is the location as given, when an API key is
    configured, and none otherwise; [getCurrentWeather] sends nothing on
    a hit and what a fetch sends on a miss. *)
Theorem upstream_requests (loc : string) (u : TemperatureUnit) (w : World) :
  let sent := if truthy (config_weather_apiKey w)
              then (requests w ++ [loc])%list else requests w in
  requests (snd (weatherService.refreshWeather loc u w)) = sent
  /\ (requests (snd (weatherService.getCurrentWeather loc u w)) = requests w
      \/ requests (snd (weatherService.getCurrentWeather loc u w)) = sent)
  /\ (forall entry,
         cache (weatherCache w) !! weatherService.cacheKey loc u = Some entry ->
         now w <= expiresAt entry ->
         requests (snd (weatherService.getCurrentWeather loc u w)) = requests w).
Proof.
  intros sent. split; [apply fetch_requests|]. split.
  - destruct (getCurrentWeather_miss loc u w) as [(entry & He & Hle)|Hmiss].
    + left. by rewrite (getCurrentWeather_hit _ _ _ _ He Hle).
    + right. destruct Hmiss as (w1 & -> & _ & _ & Hreq & Hkey).
      rewrite fetch_requests, Hreq, Hkey. reflexivity.
  - intros entry He Hle. by rewrite (getCurrentWeather_hit _ _ _ _ He Hle).
Qed.

(** ** The handlers *)

Lemma schema_parse_cases (req : controller.Input) (w : World) :
  controller.schema_parse req w = (Throw controller.ZodError, w)
  \/ exists (loc : string) (u : TemperatureUnit),
       controller.schema_parse req w = (Return (loc, u), w)
       /\ controller.input_location req = Some loc
       /\ (1 <= utf16_length loc <= 50)%nat.
Proof.
  unfold controller.schema_parse, controller.parse_location, controller.parse_unit, bind.
  destruct (controller.input_location req) as [s|]; [|by left].
  destruct (Nat.leb_spec 1 (utf16_length s)); cbn [andb]; [|by left].
  destruct (Nat.leb_spec (utf16_length s) 50); [|by left].
  cbn. destruct (controller.input_unit req) as [v|].
  - destruct (String.eqb v "celsius"); [right; exists s, celsius; by repeat split|].
    destruct (String.eqb v "fahrenheit"); [right; exists s, fahrenheit; by repeat split|].
    by left.
  - right. exists s, celsius. by repeat split.
Qed.

Lemma schema_parse_invalid_iff (req : controller.Input) (w : World) :
  controller.schema_parse req w = (Throw controller.ZodError, w)
  <-> invalid_request req.
Proof.
  unfold controller.schema_parse, controller.parse_location, controller.parse_unit,
    bind, invalid_request.
  destruct (controller.input_location req) as [s|]; [|by split; [left|]].
  destruct (Nat.leb_spec 1 (utf16_length s)); cbn [andb].
  2:{ split; [|done]. intros _. right; left. exists s. split; [done|lia]. }
  destruct (Nat.leb_spec (utf16_length s) 50).
  2:{ split; [|done]. intros _. right; left. exists s. split; [done|lia]. }
  cbn. destruct (controller.input_unit req) as [v|].
  - destruct (String.eqb_spec v "celsius") as [->|Hc].
    { split; [discriminate|].
      intros [?|[(s' & [= <-] & ?)|(v' & [= <-] & ? & ?)]]; [done|lia|done]. }
    destruct (String.eqb_spec v "fahrenheit") as [->|Hf].
    { split; [discriminate|].
      intros [?|[(s' & [= <-] & ?)|(v' & [= <-] & ? & ?)]]; [done|lia|done]. }
    split; [|done]. intros _. right; right. by exists v.
  - split; [discriminate|].
    intros [?|[(s' & [= <-] & ?)|(v' & ? & _)]]; [done|lia|done].
Qed.

Lemma on_error_zod (w : World) :
  controller.on_error controller.ZodError w
  = (Return (validation_error (now w)), tick w).
Proof. reflexivity. Qed.

Lemma on_error_api (e : JsError) (w : World) :
  controller.on_error (weatherService.apiError e) w
  = (Return (gateway_error (message (weatherService.apiError e)) (now w)), tick w).
Proof. reflexivity. Qed.

Lemma handler_getCurrentWeather_eq (req : controller.Input) (w : World) :
  controller.getCurrentWeather req w =
  match controller.schema_parse req w with
  | (Throw e, w1) => controller.on_error e w1
  | (Return v, w1) =>
      match weatherService.getCurrentWeather (fst v) (snd v) w1 with
      | (Return d, w2) => (Return (Sent 200 (SuccessResponse d (now w2))), tick w2)
      | (Throw e, w2) => controller.on_error e w2
      end
  end.
Proof.
  unfold controller.getCurrentWeather, try_catch, bind.
  destruct (controller.schema_parse req w) as [[v|e] w1]; [|reflexivity].
  destruct (weatherService.getCurrentWeather (fst v) (snd v) w1) as [[d|e] w2];
    reflexivity.
Qed.

Lemma handler_refreshWeather_eq (req : controller.Input) (w : World) :
  controller.refreshWeather req w =
  match controller.schema_parse req w with
  | (Throw e, w1) => controller.on_error e w1
  | (Return v, w1) =>
      match weatherService.checkRefreshEligibility (fst v) w1 with
      | (Return false, w2) => (Return (rate_limited (now w2)), tick w2)
      | (Return true, w2) =>
          match weatherService.refreshWeather (fst v) (snd v) w2 with
          | (Return d, w3) => (Return (Sent 200 (SuccessResponse d (now w3))), tick w3)
          | (Throw e, w3) => controller.on_error e w3
          end
      | (Throw e, w2) => controller.on_error e w2
      end
  end.
Proof.
  unfold controller.refreshWeather, try_catch, bind.
  destruct (controller.schema_parse req w) as [[v|e] w1]; [|reflexivity].
  destruct (weatherService.checkRefreshEligibility (fst v) w1) as [[[|]|e] w2];
    cbn; try reflexivity.
  destruct (weatherService.refreshWeather (fst v) (snd v) w2) as [[d|e] w3];
    reflexivity.
Qed.

Lemma getCurrentWeather_throw_form (loc : string) (u : TemperatureUnit) (w : World)
    (e : JsError) :
  fst (weatherService.getCurrentWeather loc u w) = Throw e ->
  exists e0, e = weatherService.apiError e0.
Proof.
  intros Hr. destruct (getCurrentWeather_miss loc u w) as [(entry & He & Hle)|Hmiss].
  - rewrite (getCurrentWeather_hit _ _ _ _ He Hle) in Hr. discriminate.
  - destruct Hmiss as (w1 & Heq & _). rewrite Heq in Hr.
    destruct (fetch_throw_form _ _ _ _ Hr) as (e0 & _ & ->). by exists e0.
Qed.

Lemma handler_getCurrentWeather_valid (req : controller.Input) (w : World)
    (loc : string) (u : TemperatureUnit) :
  controller.schema_parse req w = (Return (loc, u), w) ->
  exists stamp : Z,
    (exists d, fst (controller.getCurrentWeather req w)
               = Return (Sent 200 (SuccessResponse d stamp)))
    \/ (exists m, fst (controller.getCurrentWeather req w)
                  = Return (gateway_error m stamp)).
Proof.
  intros Hparse. rewrite handler_getCurrentWeather_eq, Hparse. cbn [fst snd].
  destruct (weatherService.getCurrentWeather loc u w) as [[d|e] w2] eqn:Hs.
  { eexists. left. eexists. reflexivity. }
  destruct (getCurrentWeather_throw_form loc u w e) as (e0 & ->); [by rewrite Hs|].
  rewrite on_error_api. eexists. right. eexists. reflexivity.
Qed.

Lemma handler_refreshWeather_valid (req : controller.Input) (w : World)
    (loc : string) (u : TemperatureUnit) :
  controller.schema_parse req w = (Return (loc, u), w) ->
  exists stamp : Z,
    (exists d, fst (controller.refreshWeather req w)
               = Return (Sent 200 (SuccessResponse d stamp)))
    \/ fst (controller.refreshWeather req w) = Return (rate_limited stamp)
    \/ (exists m, fst (controller.refreshWeather req w)
                  = Return (gateway_error m stamp)).
Proof.
  intros Hparse. rewrite handler_refreshWeather_eq, Hparse. cbn [fst snd].
  rewrite checkRefreshEligibility_eq.
  assert (Hrun : forall w2, exists stamp : Z,
             (exists d,
                 fst (match weatherService.refreshWeather loc u w2 with
                      | (Return d, w3) =>
                          (Return (Sent 200 (SuccessResponse d (now w3))), tick w3)
                      | (Throw e, w3) => controller.on_error e w3
                      end) = Return (Sent 200 (SuccessResponse d stamp)))
             \/ (exists m,
                    fst (match weatherService.refreshWeather loc u w2 with
                         | (Return d, w3) =>
                             (Return (Sent 200 (SuccessResponse d (now w3))), tick w3)
                         | (Throw e, w3) => controller.on_error e w3
                         end) = Return (gateway_error m stamp))).
  { intros w2.
    destruct (weatherService.refreshWeather loc u w2) as [[d|e] w3] eqn:Hs.
    { eexists. left. eexists. reflexivity. }
    destruct (fetch_throw_form loc u w2 e) as (e0 & _ & ->);
      [unfold weatherService.refreshWeather in Hs; by rewrite Hs|].
    rewrite on_error_api. eexists. right. eexists. reflexivity. }
  destruct (lastRefreshTimes (weatherCache w) !! loc) as [t|].
  2:{ destruct (Hrun w) as (stamp & [H|H]); exists stamp; [by left | by do 2 right]. }
  destruct (t =? 0).
  { destruct (Hrun w) as (stamp & [H|H]); exists stamp; [by left | by do 2 right]. }
  destruct (now w - t >=? 30000).
  { destruct (Hrun (tick w)) as (stamp & [H|H]); exists stamp;
      [by left | by do 2 right]. }
  eexists. right; left. reflexivity.
Qed.

Lemma handlers_invalid (req : controller.Input) (w : World) :
  controller.schema_parse req w = (Throw controller.ZodError, w) ->
  controller.getCurrentWeather req w = (Return (validation_error (now w)), tick w)
  /\ controller.refreshWeather req w = (Return (validation_error (now w)), tick w).
Proof.
  intros Hparse.
  by rewrite handler_getCurrentWeather_eq, handler_refreshWeather_eq, Hparse, on_error_zod.
Qed.

(** X11. The handlers always answer.  [getCurrentWeather] sends 200 with
    the snapshot, 400 VALIDATION_ERROR or 502 WEATHER_API_ERROR;
    [refreshWeather] sends one of these or 429 RATE_LIMIT_ERROR.  Neither
    lets an exception escape, and neither ever hands an error to
    [next]. *)
Theorem handlers_always_respond (req : controller.Input) (w : World) :
  (exists stamp : Z,
      (exists d, fst (controller.getCurrentWeather req w)
                 = Return (Sent 200 (SuccessResponse d stamp)))
      \/ fst (controller.getCurrentWeather req w) = Return (validation_error stamp)
      \/ (exists m, fst (controller.getCurrentWeather req w)
                    = Return (gateway_error m stamp)))
  /\ (exists stamp : Z,
         (exists d, fst (controller.refreshWeather req w)
                    = Return (Sent 200 (SuccessResponse d stamp)))
         \/ fst (controller.refreshWeather req w) = Return (validation_error stamp)
         \/ fst (controller.refreshWeather req w) = Return (rate_limited stamp)
         \/ (exists m, fst (controller.refreshWeather req w)
                       = Return (gateway_error m stamp))).
Proof.
  destruct (schema_parse_cases req w) as [Hbad|(loc & u & Hok & _)].
  - destruct (handlers_invalid req w Hbad) as [-> ->].
    split; eexists; right; left; reflexivity.
  - split.
    + destruct (handler_getCurrentWeather_valid req w loc u Hok) as (stamp & [H|H]);
        exists stamp; [by left | by do 2 right].
    + destruct (handler_refreshWeather_valid req w loc u Hok) as (stamp & [H|[H|H]]);
        exists stamp; [by left | by right; right; left | by do 3 right].
Qed.

(** X12. A request is answered 400 VALIDATION_ERROR exactly when the schema
    refuses it (no location, a location of 0 or more than 50 UTF-16 code
    units, or an unknown unit), by either handler; the answer is built at
    once: the store and the log of upstream requests are as they were, and
    the clock has been read only for the stamp of the response. *)
Theorem invalid_requests_get_400 (req : controller.Input) (w : World) :
  ((exists stamp, fst (controller.getCurrentWeather req w)
                  = Return (validation_error stamp))
   <-> invalid_request req)
  /\ ((exists stamp, fst (controller.refreshWeather req w)
                     = Return (validation_error stamp))
      <-> invalid_request req)
  /\ (invalid_request req ->
      controller.getCurrentWeather req w = (Return (validation_error (now w)), tick w)
      /\ controller.refreshWeather req w = (Return (validation_error (now w)), tick w)).
Proof.
  assert (Hinv : invalid_request req ->
                 controller.getCurrentWeather req w
                 = (Return (validation_error (now w)), tick w)
                 /\ controller.refreshWeather req w
                    = (Return (validation_error (now w)), tick w)).
  { intros H. by apply handlers_invalid, schema_parse_invalid_iff. }
  split; [|split; [|exact Hinv]].
  - split; [|intros [-> _]%Hinv; by eexists].
    intros (stamp & Hr).
    destruct (schema_parse_cases req w) as [Hbad|(loc & u & Hok & _)];
      [by apply (schema_parse_invalid_iff req w)|].
    destruct (handler_getCurrentWeather_valid req w loc u Hok)
      as (stamp' & [(d & H)|(m & H)]); rewrite H in Hr; discriminate.
  - split; [|intros [_ ->]%Hinv; by eexists].
    intros (stamp & Hr).
    destruct (schema_parse_cases req w) as [Hbad|(loc & u & Hok & _)];
      [by apply (schema_parse_invalid_iff req w)|].
    destruct (handler_refreshWeather_valid req w loc u Hok)
      as (stamp' & [(d & H)|[H|(m & H)]]); rewrite H in Hr; discriminate.
Qed.

(** ** How a fetch and the later calls compose *)

(** X13. What a fetch has stored is what [getCurrentWeather] serves: while
    the entry is the one the successful fetch left under the key, a
    lookup within the TTL and within one hour of [fetchedAt] returns the
    very snapshot the fetch returned, and sends nothing upstream. *)
Theorem fetched_snapshot_is_served (loc : string) (u : TemperatureUnit)
    (w w' : World) (d : WeatherData) :
  fst (weatherService.refreshWeather loc u w) = Return d ->
  status d = online ->
  cache (weatherCache w') !! weatherService.cacheKey loc u
  = cache (weatherCache (snd (weatherService.refreshWeather loc u w)))
      !! weatherService.cacheKey loc u ->
  now w' <= clock w (2 + ticks w)%nat + 900000 ->
  clock w' (S (ticks w')) - fetchedAt d <= 3600000 ->
  weatherService.getCurrentWeather loc u w' = (Return d, tick (tick w'))
  /\ requests (snd (weatherService.getCurrentWeather loc u w')) = requests w'.
Proof.
  unfold weatherService.refreshWeather. intros Hr Hon Hsame Httl Hage.
  destruct (fetch_return_cases _ _ _ _ Hr)
    as [(t & place & Hd & _ & Hw)|(e & entry & _ & _ & ->)]; [|discriminate].
  rewrite Hw in Hsame. cbn in Hsame. rewrite lookup_insert_eq in Hsame.
  rewrite (getCurrentWeather_hit _ _ _ _ Hsame) by exact Httl.
  cbn [data fst snd]. destruct (Z.gtb_spec (clock w' (S (ticks w')) - fetchedAt d) 3600000);
    [lia|].
  split; [|reflexivity]. by rewrite Hd.
Qed.

(** ** What every reachable store satisfies *)

Lemma shrinks_refl (w : World) : shrinks w w.
Proof. by repeat split. Qed.

Lemma shrinks_trans (w1 w2 w3 : World) :
  shrinks w1 w2 -> shrinks w2 w3 -> shrinks w1 w3.
Proof.
  intros (Hc & Ht & Hl & Hs) (Hc' & Ht' & Hl' & Hs').
  split; [congruence|]. split; [lia|]. split; [congruence|]. auto.
Qed.

Lemma shrinks_tick (w : World) : shrinks w (tick w).
Proof. split; [reflexivity|]. split; [cbn; lia|]. by split. Qed.

Lemma shrinks_requested (q : string) (w : World) : shrinks w (requested q w).
Proof. by repeat split. Qed.

Lemma get_shrinks (key : string) (w : World) :
  shrinks w (snd (WeatherCache.get key w)).
Proof.
  rewrite get_eq. destruct (cache (weatherCache w) !! key) as [entry|];
    [|apply shrinks_refl].
  destruct (now w >? expiresAt entry); [|apply shrinks_tick].
  split; [reflexivity|]. split; [cbn; lia|]. split; [reflexivity|].
  cbn. intros k e [_ Hk]%lookup_delete_Some. exact Hk.
Qed.

Lemma cleanup_shrinks (w : World) : shrinks w (snd (WeatherCache.cleanup w)).
Proof.
  split; [reflexivity|]. split; [cbn; lia|]. split; [reflexivity|].
  intros k e. rewrite cleanup_lookup.
  destruct (cache (weatherCache w) !! k) as [e'|]; [|discriminate].
  by destruct (now w >? expiresAt e').
Qed.

Lemma checkRefreshEligibility_shrinks (loc : string) (w : World) :
  shrinks w (snd (weatherService.checkRefreshEligibility loc w)).
Proof.
  rewrite checkRefreshEligibility_eq.
  destruct (lastRefreshTimes (weatherCache w) !! loc) as [t|]; [|apply shrinks_refl].
  destruct (t =? 0); [apply shrinks_refl | apply shrinks_tick].
Qed.

Lemma on_error_shrinks (e : JsError) (w : World) :
  shrinks w (snd (controller.on_error e w)).
Proof.
  unfold controller.on_error.
  destruct (String.eqb (name e) "ZodError"); [apply shrinks_tick|].
  destruct (bool_decide (code e = Some "WEATHER_API_ERROR"));
    [apply shrinks_tick | apply shrinks_refl].
Qed.

Lemma fetch_failed_shrinks (loc : string) (u : TemperatureUnit)
    (w w1 : World) (e : JsError) :
  weatherService.fetchWeatherFromAPI_try loc u w = (Throw e, w1) ->
  shrinks w (snd (weatherService.fetchWeatherFromAPI loc u w)).
Proof.
  intros Htry. rewrite (fetch_failed_eq _ _ _ _ _ Htry).
  apply (shrinks_trans _ w1).
  - destruct (fetch_try_throw _ _ _ _ _ Htry) as (_ & _ & [->|[->| ->]]).
    + apply shrinks_refl.
    + apply shrinks_requested.
    + apply (shrinks_trans _ (requested loc w));
        [apply shrinks_requested | apply shrinks_tick].
  - unfold weatherService.fetchWeatherFromAPI_catch, bind.
    pose proof (get_shrinks (weatherService.cacheKey loc u) w1) as Hg.
    destruct (WeatherCache.get (weatherService.cacheKey loc u) w1) as [[[d|]|e'] w2];
      exact Hg.
Qed.

Lemma store_inv_shrinks (w w' : World) :
  store_inv w -> shrinks w w' -> store_inv w'.
Proof.
  intros [Hentries Htimes] (Hc & Ht & Hl & Hs). split.
  - intros key e He. destruct (Hentries key e (Hs key e He))
      as (Hon & loc & u & j & i & Hk & Hu & Hf & Hx & Hr & Hji).
    split; [exact Hon|]. exists loc, u, j, i. rewrite Hc, Hl.
    repeat split; try assumption; lia.
  - intros loc t Hr. rewrite Hl in Hr. destruct (Htimes loc t Hr) as (i & Hi & ->).
    exists i. rewrite Hc. split; [lia | reflexivity].
Qed.

Lemma store_inv_stored (loc : string) (u : TemperatureUnit) (t : number)
    (place : string) (w : World) :
  store_inv w -> store_inv (stored loc u (fresh_snapshot u t place w) w).
Proof.
  intros [Hentries Htimes]. split.
  - intros key e. cbn.
    destruct (decide (weatherService.cacheKey loc u = key)) as [<-|Hne].
    + rewrite lookup_insert_eq. intros [= <-]. split; [reflexivity|].
      exists loc, u, (S (ticks w)), (3 + ticks w)%nat. cbn.
      rewrite lookup_insert_eq. repeat split; lia.
    + rewrite lookup_insert_ne by done. intros He.
      destruct (Hentries key e He) as (Hon & loc' & u' & j & i & Hk & Hu & Hf & Hx & Hr & Hji).
      split; [exact Hon|].
      destruct (decide (loc = loc')) as [<-|Hl].
      * exists loc, u', j, (3 + ticks w)%nat. rewrite lookup_insert_eq.
        repeat split; try assumption; lia.
      * exists loc', u', j, i. rewrite lookup_insert_ne by done.
        repeat split; try assumption; lia.
  - intros loc' t'. cbn. destruct (decide (loc = loc')) as [<-|Hl].
    + rewrite lookup_insert_eq. intros [= <-]. exists (3 + ticks w)%nat.
      split; [lia | reflexivity].
    + rewrite lookup_insert_ne by done. intros Hr.
      destruct (Htimes loc' t' Hr) as (i & Hi & ->). exists i. split; [lia|reflexivity].
Qed.

Lemma fetch_store_inv (loc : string) (u : TemperatureUnit) (w : World) :
  store_inv w -> store_inv (snd (weatherService.fetchWeatherFromAPI loc u w)).
Proof.
  intros Hinv.
  destruct (weatherService.fetchWeatherFromAPI_try loc u w) as [[d|e] w1] eqn:Htry.
  - rewrite (fetch_succeeded_eq _ _ _ _ _ Htry), (fetch_try_return _ _ _ _ _ Htry).
    destruct (fetch_try_return_snapshot _ _ _ _ _ Htry) as (t & place & ->).
    by apply store_inv_stored.
  - eapply store_inv_shrinks; [exact Hinv | by eapply fetch_failed_shrinks].
Qed.

Lemma getCurrentWeather_store_inv (loc : string) (u : TemperatureUnit) (w : World) :
  store_inv w -> store_inv (snd (weatherService.getCurrentWeather loc u w)).
Proof.
  intros Hinv. destruct (getCurrentWeather_miss loc u w) as [(entry & He & Hle)|Hmiss].
  - rewrite (getCurrentWeather_hit _ _ _ _ He Hle).
    eapply store_inv_shrinks; [exact Hinv|].
    apply (shrinks_trans _ (tick w)); apply shrinks_tick.
  - destruct Hmiss as (w1 & -> & _ & Hs & _).
    apply fetch_store_inv. by eapply store_inv_shrinks.
Qed.

Lemma perform_store_inv (o : Operation) (w : World) :
  store_inv w -> store_inv (perform o w).
Proof.
  intros Hinv. destruct o as [req|req|loc u|loc u|loc| |]; cbn [perform].
  - rewrite handler_getCurrentWeather_eq.
    destruct (schema_parse_cases req w) as [->|(loc & u & -> & _)].
    { eapply store_inv_shrinks; [exact Hinv | apply on_error_shrinks]. }
    cbn [fst snd]. pose proof (getCurrentWeather_store_inv loc u w Hinv) as H2.
    destruct (weatherService.getCurrentWeather loc u w) as [[d|e] w2]; cbn [snd] in *.
    + eapply store_inv_shrinks; [exact H2 | apply shrinks_tick].
    + eapply store_inv_shrinks; [exact H2 | apply on_error_shrinks].
  - rewrite handler_refreshWeather_eq.
    destruct (schema_parse_cases req w) as [->|(loc & u & -> & _)].
    { eapply store_inv_shrinks; [exact Hinv | apply on_error_shrinks]. }
    cbn [fst snd].
    pose proof (checkRefreshEligibility_shrinks loc w) as Hg.
    destruct (weatherService.checkRefreshEligibility loc w) as [[[|]|e] w1];
      cbn [snd] in Hg; pose proof (store_inv_shrinks _ _ Hinv Hg) as H1.
    + pose proof (fetch_store_inv loc u w1 H1) as H2.
      unfold weatherService.refreshWeather.
      destruct (weatherService.fetchWeatherFromAPI loc u w1) as [[d|e] w2];
        cbn [snd] in *.
      * eapply store_inv_shrinks; [exact H2 | apply shrinks_tick].
      * eapply store_inv_shrinks; [exact H2 | apply on_error_shrinks].
    + eapply store_inv_shrinks; [exact H1 | apply shrinks_tick].
    + eapply store_inv_shrinks; [exact H1 | apply on_error_shrinks].
  - by apply getCurrentWeather_store_inv.
  - by apply fetch_store_inv.
  - eapply store_inv_shrinks; [exact Hinv | apply checkRefreshEligibility_shrinks].
  - eapply store_inv_shrinks; [exact Hinv | apply cleanup_shrinks].
  - split; cbn; intros ? ?; by rewrite lookup_empty.
Qed.

Lemma reachable_store_inv (w0 w : World) :
  started w0 -> reachable w0 w -> store_inv w.
Proof.
  intros [Hc Hl] Hreach. induction Hreach as [|w o _ IH].
  - split; intros ? ?; rewrite ?Hc, ?Hl; by rewrite lookup_empty.
  - by apply perform_store_inv.
Qed.

Lemma reachable_clock (w0 w : World) :
  reachable w0 w -> clock w = clock w0.
Proof.
  induction 1 as [|w o _ IH]; [reflexivity|]. rewrite <- IH. clear IH.
  assert (Hsh : forall w1 w', shrinks w1 w' -> clock w' = clock w1)
    by (by intros w1 w' [? _]).
  assert (Hfetch : forall loc u w1,
             clock (snd (weatherService.fetchWeatherFromAPI loc u w1)) = clock w1).
  { intros loc u w1.
    destruct (weatherService.fetchWeatherFromAPI_try loc u w1) as [[d|e] w2] eqn:Htry.
    - by rewrite (fetch_succeeded_eq _ _ _ _ _ Htry), (fetch_try_return _ _ _ _ _ Htry).
    - by destruct (fetch_failed_shrinks _ _ _ _ _ Htry). }
  assert (Hget : forall loc u w1,
             clock (snd (weatherService.getCurrentWeather loc u w1)) = clock w1).
  { intros loc u w1.
    destruct (getCurrentWeather_miss loc u w1) as [(entry & He & Hle)|Hmiss].
    - by rewrite (getCurrentWeather_hit _ _ _ _ He Hle).
    - destruct Hmiss as (w2 & -> & _ & (Hc & _) & _). by rewrite Hfetch. }
  destruct o as [req|req|loc u|loc u|loc| |]; cbn [perform];
    [| |apply Hget|apply Hfetch|apply Hsh, checkRefreshEligibility_shrinks
     |reflexivity|reflexivity].
  - rewrite handler_getCurrentWeather_eq.
    destruct (schema_parse_cases req w) as [->|(loc & u & -> & _)];
      [apply Hsh, on_error_shrinks|].
    cbn [fst snd]. specialize (Hget loc u w).
    destruct (weatherService.getCurrentWeather loc u w) as [[d|e] w2]; cbn [snd] in *;
      [exact Hget|].
    rewrite <- Hget. apply Hsh, on_error_shrinks.
  - rewrite handler_refreshWeather_eq.
    destruct (schema_parse_cases req w) as [->|(loc & u & -> & _)];
      [apply Hsh, on_error_shrinks|].
    cbn [fst snd]. pose proof (checkRefreshEligibility_shrinks loc w) as [Hg _].
    destruct (weatherService.checkRefreshEligibility loc w) as [[[|]|e] w1];
      cbn [snd] in Hg; rewrite <- Hg.
    + unfold weatherService.refreshWeather. specialize (Hfetch loc u w1).
      destruct (weatherService.fetchWeatherFromAPI loc u w1) as [[d|e] w2];
        cbn [snd] in *; [exact Hfetch|].
      rewrite <- Hfetch. apply Hsh, on_error_shrinks.
    + reflexivity.
    + apply Hsh, on_error_shrinks.
Qed.

(** X15. In every world a process started with an empty cache can reach,
    whatever requests, calls, sweeps and clears have happened: each cache
    entry holds an [online] snapshot ([offline] and [outdated] are views,
    never stored); it sits under the key of a location and a unit whose
    symbol it carries; its [fetchedAt] and its [expiresAt - 15 min] are
    two consecutive readings of the clock; and a refresh instant is
    recorded for its location. *)
Theorem reachable_entries_are_well_formed (w0 w : World) (key : string)
    (e : CacheEntry) :
  started w0 ->
  reachable w0 w ->
  cache (weatherCache w) !! key = Some e ->
  status (data e) = online
  /\ exists (loc : string) (u : TemperatureUnit) (j : nat),
       key = weatherService.cacheKey loc u
       /\ unit (data e) = unit_symbol u
       /\ (S j < ticks w)%nat
       /\ fetchedAt (data e) = clock w0 j
       /\ expiresAt e = clock w0 (S j) + 900000
       /\ is_Some (lastRefreshTimes (weatherCache w) !! loc).
Proof.
  intros Hstart Hreach He.
  destruct (reachable_store_inv w0 w Hstart Hreach) as [Hentries _].
  destruct (Hentries key e He) as (Hon & loc & u & j & i & Hk & Hu & Hf & Hx & Hr & Hji).
  rewrite (reachable_clock w0 w Hreach) in *.
  split; [exact Hon|]. exists loc, u, j. repeat split; try assumption; [lia|].
  by eexists.
Qed.

(** X16. The [outdated] label needs a stall.  An entry is dropped 15
    minutes after it is stored and is [outdated] one hour after it is
    fetched: in a reachable world [getCurrentWeather] returns [outdated]
    only if more than 45 minutes in all have passed between the two clock
    readings of this lookup and between the two readings ([fetchedAt],
    then the one of [set]) of the fetch that stored the entry. *)
Theorem outdated_needs_a_stall (w0 w : World) (loc : string) (u : TemperatureUnit)
    (d : WeatherData) :
  started w0 ->
  reachable w0 w ->
  fst (weatherService.getCurrentWeather loc u w) = Return d ->
  status d = outdated ->
  exists j : nat,
    (S j < ticks w)%nat
    /\ fetchedAt d = clock w0 j
    /\ (clock w0 (S (ticks w)) - clock w0 (ticks w))
       + (clock w0 (S j) - clock w0 j) > 2700000.
Proof.
  intros Hstart Hreach Hr Hout.
  destruct (reachable_store_inv w0 w Hstart Hreach) as [Hentries _].
  pose proof (reachable_clock w0 w Hreach) as Hclock.
  destruct (getCurrentWeather_miss loc u w) as [(entry & He & Hle)|Hmiss].
  - rewrite (getCurrentWeather_hit _ _ _ _ He Hle) in Hr. injection Hr as <-.
    cbn in Hout |- *.
    destruct (Z.gtb_spec (clock w (S (ticks w)) - fetchedAt (data entry)) 3600000)
      as [Hage|]; [|discriminate].
    destruct (Hentries _ _ He) as (_ & _ & _ & j & i & _ & _ & Hf & Hx & _ & Hji).
    unfold now in Hle. rewrite Hclock in *.
    exists j. split; [lia|]. split; [exact Hf|]. lia.
  - destruct Hmiss as (w1 & Heq & Hnone & _). rewrite Heq in Hr.
    destruct (fetch_return_cases _ _ _ _ Hr)
      as [(t & place & -> & _)|(e & entry & _ & He & _)]; [discriminate|].
    rewrite Hnone in He. discriminate.
Qed.

(** X17. In a reachable world the snapshot either service function returns
    for a unit carries the symbol of that unit, be it fresh, served from
    the cache, or an offline fallback: no entry is ever served under the
    other unit. *)
Theorem returned_unit_matches_request (w0 w : World) (loc : string)
    (u : TemperatureUnit) (d : WeatherData) :
  started w0 ->
  reachable w0 w ->
  fst (weatherService.getCurrentWeather loc u w) = Return d
  \/ fst (weatherService.refreshWeather loc u w) = Return d ->
  unit d = unit_symbol u.
Proof.
  intros Hstart Hreach Hr.
  pose proof (reachable_store_inv w0 w Hstart Hreach) as Hinv.
  assert (Hentry : forall w1 entry,
             store_inv w1 ->
             cache (weatherCache w1) !! weatherService.cacheKey loc u = Some entry ->
             unit (data entry) = unit_symbol u).
  { intros w1 entry [Hentries _] He.
    destruct (Hentries _ _ He) as (_ & loc' & u' & _ & _ & Hk & Hu & _).
    apply cacheKey_inj in Hk as [_ ->]. exact Hu. }
  assert (Hfetch : forall w1,
             store_inv w1 ->
             fst (weatherService.fetchWeatherFromAPI loc u w1) = Return d ->
             unit d = unit_symbol u).
  { intros w1 Hinv1 Hf.
    destruct (fetch_return_cases _ _ _ _ Hf)
      as [(t & place & -> & _)|(e & entry & _ & He & ->)].
    - by destruct u.
    - exact (Hentry w1 entry Hinv1 He). }
  destruct Hr as [Hr|Hr]; [|by apply (Hfetch w)].
  destruct (getCurrentWeather_miss loc u w) as [(entry & He & Hle)|Hmiss].
  - rewrite (getCurrentWeather_hit _ _ _ _ He Hle) in Hr. injection Hr as <-.
    exact (Hentry w entry Hinv He).
  - destruct Hmiss as (w1 & Heq & _ & Hs & _). rewrite Heq in Hr.
    apply (Hfetch w1); [by eapply store_inv_shrinks | exact Hr].
Qed.

(** X18. With a clock that never goes back, no entry of a reachable world
    outlives its TTL: it expires at least 15 minutes after it was fetched
    and at most 15 minutes after the present instant, and the refresh
    instant recorded for its location is no earlier than the entry and
    no later than now. *)
Theorem entries_live_at_most_ttl (w0 w : World) (key : string) (e : CacheEntry) :
  started w0 ->
  monotone w0 ->
  reachable w0 w ->
  cache (weatherCache w) !! key = Some e ->
  fetchedAt (data e) + 900000 <= expiresAt e <= now w + 900000
  /\ exists (loc : string) (u : TemperatureUnit) (t : Z),
       key = weatherService.cacheKey loc u
       /\ lastRefreshTimes (weatherCache w) !! loc = Some t
       /\ expiresAt e - 900000 <= t <= now w.
Proof.
  intros Hstart Hmono Hreach He.
  destruct (reachable_store_inv w0 w Hstart Hreach) as [Hentries _].
  pose proof (reachable_clock w0 w Hreach) as Hclock.
  destruct (Hentries key e He) as (_ & loc & u & j & i & Hk & _ & Hf & Hx & Hr & Hji).
  unfold now. rewrite Hclock in *.
  pose proof (Hmono j (S j) ltac:(lia)).
  pose proof (Hmono (S j) i ltac:(lia)).
  pose proof (Hmono i (ticks w) ltac:(lia)).
  split; [lia|]. exists loc, u, (clock w0 i). repeat split; try assumption; lia.
Qed.

(** ** The timestamp *)

Lemma string_length_app (s1 s2 : string) :
  String.length (s1 +:+ s2) = (String.length s1 + String.length s2)%nat.
Proof.
  induction s1 as [|a s1 IH]; [reflexivity|].
  change (String a s1 +:+ s2) with (String a (s1 +:+ s2)). cbn. by rewrite IH.
Qed.

Lemma padStart2_length (n : Z) :
  0 <= n < 100 -> String.length (padStart2 n) = 2%nat.
Proof.
  intros Hn.
  assert (Hall : forallb (fun k => String.length (padStart2 (Z.of_nat k)) =? 2)%nat
                   (seq 0 100) = true) by (vm_compute; reflexivity).
  rewrite forallb_forall in Hall.
  specialize (Hall (Z.to_nat n)). rewrite Z2Nat.id in Hall by lia.
  apply Nat.eqb_eq, Hall, in_seq. lia.
Qed.

(** X19. The timestamp of a snapshot built by a fetch always has the shape
    'Updated at HH:MM', 16 characters long: the hour (0 to 23) and the
    minute (0 to 59) of the local time of the first clock reading, each
    padded to two digits. *)
Theorem fresh_timestamp_shape (loc : string) (u : TemperatureUnit) (w : World)
    (d : WeatherData) :
  fst (weatherService.refreshWeather loc u w) = Return d ->
  status d = online ->
  exists h m : Z,
    h = ((now w + localOffset w (now w)) / 3600000) mod 24
    /\ m = ((now w + localOffset w (now w)) / 60000) mod 60
    /\ timestamp d = "Updated at " +:+ padStart2 h +:+ ":" +:+ padStart2 m
    /\ String.length (padStart2 h) = 2%nat
    /\ String.length (padStart2 m) = 2%nat
    /\ String.length (timestamp d) = 16%nat.
Proof.
  unfold weatherService.refreshWeather. intros Hr Hon.
  destruct (fetch_return_cases _ _ _ _ Hr)
    as [(t & place & -> & _)|(e & entry & _ & _ & ->)]; [|discriminate].
  eexists _, _. split; [reflexivity|]. split; [reflexivity|].
  assert (Hh : String.length
                 (padStart2 (((now w + localOffset w (now w)) / 3600000) mod 24)) = 2%nat).
  { apply padStart2_length.
    pose proof (Z.mod_pos_bound ((now w + localOffset w (now w)) / 3600000) 24). lia. }
  assert (Hm : String.length
                 (padStart2 (((now w + localOffset w (now w)) / 60000) mod 60)) = 2%nat).
  { apply padStart2_length.
    pose proof (Z.mod_pos_bound ((now w + localOffset w (now w)) / 60000) 60). lia. }
  split; [reflexivity|]. split; [exact Hh|]. split; [exact Hm|].
  cbn [timestamp fresh_snapshot]. unfold getHours, getMinutes. cbn [instant offset].
  rewrite !string_length_app, Hh, Hm. reflexivity.
Qed.

(** * Concrete runs of the further properties **********************************)

Lemma get_miss_is_stable_witness :
  fst (WeatherCache.get "Tokyo_celsius" Sample.tokyo_expired) = Return None
  /\ fst (WeatherCache.get "Tokyo_celsius"
            (snd (WeatherCache.get "Tokyo_celsius" Sample.tokyo_expired)))
     = Return None.
Proof.
  assert (H : fst (WeatherCache.get "Tokyo_celsius" Sample.tokyo_expired) = Return None)
    by (vm_compute; reflexivity).
  split; [exact H|].
  rewrite (get_miss_is_stable "Tokyo_celsius" Sample.tokyo_expired H). reflexivity.
Defined.

Lemma sweep_is_transparent_to_get_witness :
  now Sample.tokyo_expired <= clock Sample.tokyo_expired (S (ticks Sample.tokyo_expired))
  /\ fst (WeatherCache.get "Tokyo_celsius" (snd (WeatherCache.cleanup Sample.tokyo_expired)))
     = fst (WeatherCache.get "Tokyo_celsius" (tick Sample.tokyo_expired)).
Proof.
  assert (H : now Sample.tokyo_expired
              <= clock Sample.tokyo_expired (S (ticks Sample.tokyo_expired)))
    by (vm_compute; intro; discriminate).
  split; [exact H|].
  exact (proj1 (sweep_is_transparent_to_get "Tokyo_celsius" Sample.tokyo_expired H)).
Defined.

Lemma later_sweep_subsumes_witness :
  now Sample.tokyo_cached <= clock Sample.tokyo_cached (S (ticks Sample.tokyo_cached))
  /\ cache (weatherCache (snd (WeatherCache.cleanup
                                 (snd (WeatherCache.cleanup Sample.tokyo_cached)))))
     = cache (weatherCache (snd (WeatherCache.cleanup (tick Sample.tokyo_cached)))).
Proof.
  assert (H : now Sample.tokyo_cached
              <= clock Sample.tokyo_cached (S (ticks Sample.tokyo_cached)))
    by (vm_compute; intro; discriminate).
  split; [exact H|]. exact (later_sweep_subsumes Sample.tokyo_cached H).
Defined.

Lemma refreshWeather_status_witness :
  fst (weatherService.refreshWeather "Tokyo" celsius Sample.tokyo_cached)
    = Return (with_status Sample.tokyo_snapshot offline)
  /\ attempt_fails "Tokyo" Sample.tokyo_cached.
Proof.
  assert (H : fst (weatherService.refreshWeather "Tokyo" celsius Sample.tokyo_cached)
              = Return (with_status Sample.tokyo_snapshot offline))
    by (vm_compute; reflexivity).
  split; [exact H|].
  destruct (refreshWeather_status "Tokyo" celsius Sample.tokyo_cached
              (with_status Sample.tokyo_snapshot offline) H) as (_ & Hiff & _).
  apply Hiff. reflexivity.
Defined.

Lemma thrown_message_witness :
  (exists e, fst (weatherService.refreshWeather "Atlantis" celsius Sample.refused) = Throw e
             /\ message e = "No matching location found.").
Proof.
  assert (H : fst (weatherService.refreshWeather "Atlantis" celsius Sample.refused)
              = Throw {| name := "Error"; message := "No matching location found.";
                         code := Some "WEATHER_API_ERROR";
                         response_error_message := None |})
    by (vm_compute; reflexivity).
  eexists. split; [exact H|].
  rewrite (thrown_message "Atlantis" celsius Sample.refused _ H). reflexivity.
Defined.

Lemma fetched_snapshot_is_served_witness :
  fst (weatherService.refreshWeather "Tokyo" celsius Sample.tokyo_fresh)
    = Return Sample.tokyo_snapshot
  /\ fst (weatherService.getCurrentWeather "Tokyo" celsius Sample.tokyo_cached)
     = Return Sample.tokyo_snapshot.
Proof.
  assert (H : fst (weatherService.refreshWeather "Tokyo" celsius Sample.tokyo_fresh)
              = Return Sample.tokyo_snapshot) by (vm_compute; reflexivity).
  split; [exact H|].
  destruct (fetched_snapshot_is_served "Tokyo" celsius Sample.tokyo_fresh
              Sample.tokyo_cached Sample.tokyo_snapshot H) as [Hserved _].
  - reflexivity.
  - reflexivity.
  - vm_compute; intro; discriminate.
  - vm_compute; intro; discriminate.
  - rewrite Hserved. reflexivity.
Defined.

Lemma tokyo_cached_reachable : reachable Sample.tokyo_fresh Sample.tokyo_cached.
Proof.
  exact (reachable_step Sample.tokyo_fresh Sample.tokyo_fresh
           (CallRefreshWeather "Tokyo" celsius) (reachable_start Sample.tokyo_fresh)).
Defined.

Lemma tokyo_fresh_started : started Sample.tokyo_fresh.
Proof. split; reflexivity. Defined.

Lemma reachable_entries_are_well_formed_witness :
  started Sample.tokyo_fresh
  /\ reachable Sample.tokyo_fresh Sample.tokyo_cached
  /\ cache (weatherCache Sample.tokyo_cached) !! "Tokyo_celsius" = Some Sample.tokyo_entry
  /\ status (data Sample.tokyo_entry) = online.
Proof.
  assert (H : cache (weatherCache Sample.tokyo_cached) !! "Tokyo_celsius"
              = Some Sample.tokyo_entry) by (vm_compute; reflexivity).
  split; [exact tokyo_fresh_started|]. split; [exact tokyo_cached_reachable|].
  split; [exact H|].
  exact (proj1 (reachable_entries_are_well_formed Sample.tokyo_fresh Sample.tokyo_cached
                  "Tokyo_celsius" Sample.tokyo_entry tokyo_fresh_started
                  tokyo_cached_reachable H)).
Defined.

Lemma outdated_needs_a_stall_witness :
  fst (weatherService.getCurrentWeather "Tokyo" celsius Sample.tokyo_stalled)
    = Return (with_status Sample.tokyo_snapshot outdated)
  /\ exists j : nat,
       (S j < ticks Sample.tokyo_stalled)%nat
       /\ (Sample.paused 5 7200000 (S (ticks Sample.tokyo_stalled))
           - Sample.paused 5 7200000 (ticks Sample.tokyo_stalled))
          + (Sample.paused 5 7200000 (S j) - Sample.paused 5 7200000 j) > 2700000.
Proof.
  assert (H : fst (weatherService.getCurrentWeather "Tokyo" celsius Sample.tokyo_stalled)
              = Return (with_status Sample.tokyo_snapshot outdated))
    by (vm_compute; reflexivity).
  split; [exact H|].
  destruct (outdated_needs_a_stall
              (Sample.fresh (Sample.paused 5 7200000)
                 (Sample.first_only (Sample.answer (ofTenths 185) "Tokyo")))
              Sample.tokyo_stalled "Tokyo" celsius
              (with_status Sample.tokyo_snapshot outdated)) as (j & Hj & _ & Hgap).
  - split; reflexivity.
  - exact (reachable_step _ _ (CallRefreshWeather "Tokyo" celsius) (reachable_start _)).
  - exact H.
  - reflexivity.
  - exists j. split; [exact Hj | exact Hgap].
Defined.

Lemma returned_unit_matches_request_witness :
  fst (weatherService.getCurrentWeather "Tokyo" celsius Sample.tokyo_cached)
    = Return Sample.tokyo_snapshot
  /\ unit Sample.tokyo_snapshot = unit_symbol celsius.
Proof.
  assert (H : fst (weatherService.getCurrentWeather "Tokyo" celsius Sample.tokyo_cached)
              = Return Sample.tokyo_snapshot) by (vm_compute; reflexivity).
  split; [exact H|].
  exact (returned_unit_matches_request Sample.tokyo_fresh Sample.tokyo_cached
           "Tokyo" celsius Sample.tokyo_snapshot tokyo_fresh_started
           tokyo_cached_reachable (or_introl H)).
Defined.

Lemma steady_monotone : monotone Sample.tokyo_fresh.
Proof. intros i j Hij. cbn. unfold Sample.steady. lia. Defined.

Lemma entries_live_at_most_ttl_witness :
  monotone Sample.tokyo_fresh
  /\ cache (weatherCache Sample.tokyo_cached) !! "Tokyo_celsius" = Some Sample.tokyo_entry
  /\ fetchedAt (data Sample.tokyo_entry) + 900000 <= expiresAt Sample.tokyo_entry
     <= now Sample.tokyo_cached + 900000.
Proof.
  assert (H : cache (weatherCache Sample.tokyo_cached) !! "Tokyo_celsius"
              = Some Sample.tokyo_entry) by (vm_compute; reflexivity).
  split; [exact steady_monotone|]. split; [exact H|].
  exact (proj1 (entries_live_at_most_ttl Sample.tokyo_fresh Sample.tokyo_cached
                  "Tokyo_celsius" Sample.tokyo_entry tokyo_fresh_started
                  steady_monotone tokyo_cached_reachable H)).
Defined.

Lemma fresh_timestamp_shape_witness :
  fst (weatherService.refreshWeather "Tokyo" celsius Sample.tokyo_fresh)
    = Return Sample.tokyo_snapshot
  /\ String.length (timestamp Sample.tokyo_snapshot) = 16%nat.
Proof.
  assert (H : fst (weatherService.refreshWeather "Tokyo" celsius Sample.tokyo_fresh)
              = Return Sample.tokyo_snapshot) by (vm_compute; reflexivity).
  split; [exact H|].
  destruct (fresh_timestamp_shape "Tokyo" celsius Sample.tokyo_fresh
              Sample.tokyo_snapshot H eq_refl) as (h & m & _ & _ & _ & _ & _ & Hlen).
  exact Hlen.
Defined.

(** ** Conversion of the readings the upstream sends *)

Lemma number_eqb_eq (x y : number) : number_eqb x y = true -> x = y.
Proof.
  destruct x as [s|s| |s m e], y as [s'|s'| |s' m' e']; cbn; try discriminate;
    try reflexivity.
  - by intros ->%Bool.eqb_prop.
  - by intros ->%Bool.eqb_prop.
  - intros [[->%Bool.eqb_prop ->%Pos.eqb_eq]%andb_prop ->%Z.eqb_eq]%andb_prop.
    reflexivity.
Qed.

Lemma one_decimal_readings_ok (n : Z) :
  -900 <= n <= 600 -> one_decimal_reading_ok n = true.
Proof.
  intros Hn.
  assert (Hall : forallb (fun k => one_decimal_reading_ok (Z.of_nat k - 900))
                   (seq 0 1501) = true) by (vm_compute; reflexivity).
  rewrite forallb_forall in Hall.
  specialize (Hall (Z.to_nat (n + 900))).
  replace (Z.of_nat (Z.to_nat (n + 900)) - 900) with n in Hall by lia.
  apply Hall, in_seq. lia.
Qed.

(** X20. On every Celsius reading with one decimal in the plausible range
    (-90.0 to 60.0, by tenths), the binary64 pipeline is exact: the guard
    passes; in celsius the reading is stored unchanged by the rounding;
    in fahrenheit [(C * 9) / 5 + 32] rounded by [toFixed(1)] is the
    correctly rounded tenth of the exact value.  The one irregular value
    is -17.8, which is stored as [-0]: -0.04 prints as '-0.0'. *)
Theorem one_decimal_readings_convert_exactly (n : Z) :
  -900 <= n <= 600 ->
  let C := ofTenths n in
  let F := parseFloat (toFixed1 (weatherService.celsiusToFahrenheit C)) in
  implausible C = false
  /\ parseFloat (toFixed1 C) = C
  /\ (F = ofTenths (fahrenheit_tenths n)
      \/ (n = -178 /\ F = S754_zero true)).
Proof.
  intros Hn C F. pose proof (one_decimal_readings_ok n Hn) as Hok.
  unfold one_decimal_reading_ok in Hok. fold C F in Hok.
  apply andb_prop in Hok as [[Hg Hc]%andb_prop Hf].
  split; [by apply negb_true_iff|]. split; [by apply number_eqb_eq|].
  apply orb_prop in Hf as [Hf|[Hz Hf]%andb_prop]; [left; by apply number_eqb_eq|].
  right. split; [|by apply number_eqb_eq].
  apply Z.eqb_eq in Hz. unfold fahrenheit_tenths in Hz.
  assert (Hrange : 0 <= 18 * n + 3205 < 10).
  { pose proof (Z.div_mod (18 * n + 3205) 10 ltac:(lia)) as Hdm.
    pose proof (Z.mod_pos_bound (18 * n + 3205) 10 ltac:(lia)). lia. }
  lia.
Qed.

Lemma one_decimal_readings_convert_exactly_witness :
  -900 <= 203 <= 600
  /\ parseFloat (toFixed1 (weatherService.celsiusToFahrenheit (ofTenths 203)))
     = ofTenths 685.
Proof.
  assert (H : -900 <= 203 <= 600) by lia.
  split; [exact H|].
  destruct (one_decimal_readings_convert_exactly 203 H) as (_ & _ & [HF|[Hn _]]).
  - exact HF.
  - discriminate Hn.
Defined.

(** * Calls suspended at the upstream request **********************************)

Lemma controller_refreshWeather_units_eq (loc : string) (u : TemperatureUnit)
    (w : World) :
  (1 <= utf16_length loc <= 50)%nat ->
  controller.refreshWeather (request_for loc u) w =
  match weatherService.checkRefreshEligibility loc w with
  | (Return false, w1) => (Return (rate_limited (now w1)), tick w1)
  | (Return true, w1) =>
      match weatherService.refreshWeather loc u w1 with
      | (Return d, w2) => (Return (Sent 200 (SuccessResponse d (now w2))), tick w2)
      | (Throw e, w2) => controller.on_error e w2
      end
  | (Throw e, w1) => controller.on_error e w1
  end.
Proof.
  intros Hloc. rewrite handler_refreshWeather_eq, (schema_parse_units _ _ _ Hloc).
  reflexivity.
Qed.

Lemma fetch_try_awaiting_eq (during : World -> World) (loc : string)
    (u : TemperatureUnit) (w : World) :
  fetchWeatherFromAPI_try_awaiting during loc u w =
  let w' := during (requested loc w) in
  if negb (truthy (config_weather_apiKey w))
  then (Throw (Error "Weather API key not configured"), w)
  else
    match network w (length (requests w)) loc with
    | Upstream.Rejected msg m =>
        (Throw {| name := "AxiosError"; message := msg; code := None;
                  response_error_message := m |}, w')
    | Upstream.Resolved None => (Throw (Error "Invalid API response format"), w')
    | Upstream.Resolved (Some d) =>
        match Upstream.current d with
        | None => (Throw (Error "Invalid API response format"), w')
        | Some c =>
            if implausible (Upstream.temp_c c)
            then (Throw (Error "Temperature value outside plausible range"), w')
            else
              match Upstream.location d with
              | None =>
                  (Throw (TypeError "Cannot read properties of undefined (reading 'name')"),
                   tick w')
              | Some l =>
                  let wd := fresh_snapshot u (Upstream.temp_c c) (Upstream.name l) w' in
                  (Return wd, stored_from loc u wd w')
              end
        end
    end.
Proof.
  unfold fetchWeatherFromAPI_try_awaiting, bind, config_weather_apiKey',
    axios_get_awaiting, implausible. cbn zeta.
  destruct (negb (truthy (config_weather_apiKey w))); [reflexivity|].
  destruct (network w (length (requests w)) loc) as [msg m|[d|]];
    [reflexivity| |reflexivity].
  destruct (Upstream.current d) as [c|]; [|reflexivity].
  destruct (ltb (Upstream.temp_c c) (ofZ (-90)) || gtb (Upstream.temp_c c) (ofZ 60));
    [reflexivity|].
  destruct (Upstream.location d) as [l|]; reflexivity.
Qed.


(** What a suspended fetch returns: the snapshot it has built and stored
    after the [await], or, its attempt having failed, an entry of the
    cache marked offline: one that was there before the request was sent
    or one that is there when the request settles. *)
Lemma fetch_awaiting_return_cases (during : World -> World) (loc : string)
    (u : TemperatureUnit) (w : World) (d : WeatherData) :
  fst (fetchWeatherFromAPI_awaiting during loc u w) = Return d ->
  let w' := during (requested loc w) in
  (exists (t : number) (place : string),
      d = fresh_snapshot u t place w'
      /\ snd (fetchWeatherFromAPI_awaiting during loc u w) = stored_from loc u d w')
  \/ (exists entry : CacheEntry,
         d = with_status (data entry) offline
         /\ (cache (weatherCache w) !! weatherService.cacheKey loc u = Some entry
             \/ cache (weatherCache w') !! weatherService.cacheKey loc u = Some entry)).
Proof.
  intros Hr w'. unfold fetchWeatherFromAPI_awaiting, try_catch in *.
  rewrite fetch_try_awaiting_eq in *. cbn zeta in *. fold w' in Hr |- *.
  assert (Hcatch : forall e w1,
             weatherCache w1 = weatherCache w \/ weatherCache w1 = weatherCache w' ->
             fst (weatherService.fetchWeatherFromAPI_catch loc u e w1) = Return d ->
             exists entry : CacheEntry,
               d = with_status (data entry) offline
               /\ (cache (weatherCache w) !! weatherService.cacheKey loc u = Some entry
                   \/ cache (weatherCache w') !! weatherService.cacheKey loc u
                      = Some entry)).
  { intros e w1 Hw1. rewrite fetch_catch_eq. cbn zeta.
    destruct (cache (weatherCache w1) !! weatherService.cacheKey loc u) as [entry|] eqn:He;
      [|discriminate].
    destruct (now w1 >? expiresAt entry); [discriminate|].
    intros [= <-]. exists entry. split; [reflexivity|].
    destruct Hw1 as [Hw1|Hw1]; rewrite Hw1 in He; auto. }
  destruct (negb (truthy (config_weather_apiKey w))).
  { right. eapply Hcatch; [|exact Hr]. by left. }
  destruct (network w (length (requests w)) loc) as [msg m|[dd|]].
  { right. eapply Hcatch; [|exact Hr]. by right. }
  2:{ right. eapply Hcatch; [|exact Hr]. by right. }
  destruct (Upstream.current dd) as [c|].
  2:{ right. eapply Hcatch; [|exact Hr]. by right. }
  destruct (implausible (Upstream.temp_c c)).
  { right. eapply Hcatch; [|exact Hr]. by right. }
  destruct (Upstream.location dd) as [l|].
  2:{ right. eapply Hcatch; [|exact Hr]. by right. }
  cbn in Hr. injection Hr as <-. left. eexists _, _. split; reflexivity.
Qed.

(** The world in which a suspended [getCurrentWeather] goes on to fetch. *)
Lemma getCurrentWeather_awaiting_miss (during : World -> World) (loc : string)
    (u : TemperatureUnit) (w : World) :
  let key := weatherService.cacheKey loc u in
  (exists entry, cache (weatherCache w) !! key = Some entry
                 /\ now w <= expiresAt entry
                 /\ getCurrentWeather_awaiting during loc u w
                    = (Return (with_status (data entry)
                                 (if clock w (S (ticks w)) - fetchedAt (data entry)
                                     >? 3600000
                                  then outdated else online)),
                       tick (tick w)))
  \/ exists w1 : World,
       getCurrentWeather_awaiting during loc u w
       = fetchWeatherFromAPI_awaiting during loc u w1
       /\ cache (weatherCache w1) !! key = None
       /\ shrinks w w1
       /\ (forall entry, cache (weatherCache w) !! key = Some entry ->
                         expiresAt entry < now w).
Proof.
  intros key. unfold getCurrentWeather_awaiting, bind. rewrite get_eq. fold key.
  destruct (cache (weatherCache w) !! key) as [entry|] eqn:He.
  - destruct (Z.gtb_spec (now w) (expiresAt entry)).
    + right. eexists. split; [reflexivity|]. cbn [snd].
      split; [cbn; apply lookup_delete_eq|].
      split; [|intros entry' [= <-]; lia].
      unfold shrinks, with_cache, tick. cbn.
      split; [reflexivity|]. split; [lia|]. split; [reflexivity|].
      intros k e' [_ Hk]%lookup_delete_Some. exact Hk.
    + left. exists entry. by repeat split.
  - right. exists w. split; [reflexivity|]. split; [exact He|].
    split; [apply shrinks_refl|]. intros entry [=].
Qed.


(** X14. A successful automatic fetch starts the manual-refresh window.
    When [getCurrentWeather] misses the cache and returns an [online]
    snapshot, whatever other requests were served during its [await], the
    last clock reading it took is recorded as the refresh instant of the
    location, and a refresh request for that location, in either unit,
    less than 30 s after it is answered 429. *)
Theorem automatic_fetch_starts_the_window (during : World -> World)
    (loc : string) (u : TemperatureUnit) (w : World) (d : WeatherData) :
  (forall entry,
      cache (weatherCache w) !! weatherService.cacheKey loc u = Some entry ->
      expiresAt entry < now w) ->
  fst (getCurrentWeather_awaiting during loc u w) = Return d ->
  status d = online ->
  let w2 := snd (getCurrentWeather_awaiting during loc u w) in
  exists i : nat,
    ticks w2 = S i
    /\ lastRefreshTimes (weatherCache w2) !! loc = Some (clock w2 i)
    /\ cache (weatherCache w2) !! weatherService.cacheKey loc u
       = Some {| data := d; expiresAt := clock w2 (i - 1)%nat + 900000 |}
    /\ forall (u' : TemperatureUnit) (w3 : World),
         lastRefreshTimes (weatherCache w3) = lastRefreshTimes (weatherCache w2) ->
         (1 <= utf16_length loc <= 50)%nat ->
         clock w2 i <> 0 ->
         now w3 - clock w2 i < 30000 ->
         fst (controller.refreshWeather (request_for loc u') w3)
         = Return (rate_limited (clock w3 (S (ticks w3)))).
Proof.
  intros Hmiss Hr Hon w2.
  destruct (getCurrentWeather_awaiting_miss during loc u w)
    as [(entry & He & Hle & _)|(w1 & Heq & Hnone & _)].
  { specialize (Hmiss entry He). lia. }
  subst w2. rewrite Heq in Hr |- *.
  destruct (fetch_awaiting_return_cases _ _ _ _ _ Hr)
    as [(t & place & _ & Hw)|(entry & -> & _)]; [|discriminate].
  rewrite Hw. set (w' := during (requested loc w1)).
  exists (3 + ticks w')%nat. split; [reflexivity|]. split.
  { cbn. by rewrite lookup_insert_eq. }
  split.
  { cbn. rewrite lookup_insert_eq. do 3 f_equal. }
  intros u' w3 Hl Hloc Hnz Hlt.
  rewrite (controller_refreshWeather_units_eq loc u' w3 Hloc),
    checkRefreshEligibility_eq, Hl.
  cbn in Hnz, Hlt |- *. rewrite lookup_insert_eq.
  destruct (Z.eqb_spec (clock w' (S (S (S (ticks w'))))) 0) as [H0|_]; [by destruct Hnz|].
  destruct (Z.geb_spec (now w3 - clock w' (S (S (S (ticks w'))))) 30000); [lia|].
  reflexivity.
Qed.


Lemma automatic_fetch_starts_the_window_witness :
  fst (getCurrentWeather_awaiting (fun w => w) "Tokyo" celsius Sample.tokyo_fresh)
    = Return Sample.tokyo_snapshot
  /\ exists i : nat,
       ticks (snd (getCurrentWeather_awaiting (fun w => w) "Tokyo" celsius
                     Sample.tokyo_fresh)) = S i
       /\ lastRefreshTimes
            (weatherCache
               (snd (getCurrentWeather_awaiting (fun w => w) "Tokyo" celsius
                       Sample.tokyo_fresh))) !! "Tokyo"
          = Some (clock
                    (snd (getCurrentWeather_awaiting (fun w => w) "Tokyo" celsius
                            Sample.tokyo_fresh)) i).
Proof.
  assert (H : fst (getCurrentWeather_awaiting (fun w => w) "Tokyo" celsius
                     Sample.tokyo_fresh) = Return Sample.tokyo_snapshot)
    by (vm_compute; reflexivity).
  split; [exact H|].
  destruct (automatic_fetch_starts_the_window (fun w => w) "Tokyo" celsius
              Sample.tokyo_fresh Sample.tokyo_snapshot) as (i & Hi & Hl & _).
  - intros entry He. vm_compute in He. discriminate He.
  - exact H.
  - reflexivity.
  - exists i. split; [exact Hi | exact Hl].
Defined.

(** The schema counts UTF-16 code units: thirty times 'é', 60 bytes, is a
    location the handler accepts, and fifty-one letters are refused. *)
Example location_length_is_in_code_units :
  utf16_length "éééééééééééééééééééééééééééééé" = 30%nat
  /\ String.length "éééééééééééééééééééééééééééééé" = 60%nat
  /\ (exists d stamp,
         fst (controller.getCurrentWeather
                {| controller.input_location := Some "éééééééééééééééééééééééééééééé";
                   controller.input_unit := None |}
                (Sample.reading (ofZ 20)))
         = Return (Sent 200 (SuccessResponse d stamp)))
  /\ utf16_length "😀" = 2%nat
  /\ fst (controller.getCurrentWeather
            {| controller.input_location :=
                 Some "abcdefghijklmnopqrstuvwxyzabcdefghijklmnopqrstuvwxy";
               controller.input_unit := None |}
            (Sample.reading (ofZ 20)))
     = Return (validation_error 1700000000000).
Proof.
  split; [reflexivity|]. split; [reflexivity|]. split; [|split; [reflexivity|]].
  - eexists _, _. vm_compute. reflexivity.
  - vm_compute. reflexivity.
Qed.
